(** * Waitlist routes: a shallow embedding of [backend/src/routes/waitlist.ts]

    The five Express handlers of the router are embedded as functions in a
    small state-and-exception monad.  The state is the world the handlers
    act on (process environment, subscriber store, outgoing mail) together
    with a script of what the external services answer during one request
    (storage faults, answers of the mail provider). *)

From stdpp Require Import base strings list gmap fin_maps pretty.

Set Warnings "-register-all".
Local Open Scope string_scope.

(** ** JavaScript values

    [req.body] is typed [any]: the handlers receive whatever the body parser
    left there.  [JUndefined] is the value of a body that was never parsed
    and of a property that is not there.  Numbers are kept as integers: the
    handlers only test them against zero and print them. *)

Inductive jsval : Type :=
| JUndefined
| JNull
| JBool (b : bool)
| JNum (n : Z)
| JStr (s : string)
| JArr (items : list jsval)
| JObj (props : list (string * jsval)).

(** What is thrown: an [Error] object with its message, or any other value. *)
Inductive exn : Type :=
| JsError (message : string)
| NotAnError.

(** [!v] is [negb (truthy v)]. *)
Definition truthy (v : jsval) : bool :=
  match v with
  | JUndefined | JNull => false
  | JBool b => b
  | JNum n => negb (n =? 0)%Z
  | JStr s => negb (bool_decide (s = ""))
  | JArr _ | JObj _ => true
  end.

(** Own property of a parsed object, first entry for the key. *)
Fixpoint lookup_prop (k : string) (props : list (string * jsval)) : jsval :=
  match props with
  | [] => JUndefined
  | (k', v) :: rest => if bool_decide (k' = k) then v else lookup_prop k rest
  end.

(** [v.k] for the property names the handlers read from a request body
    ([name], [email], [role], [subject], [body], [emails]): none of them is
    a property of an array, a string, a number or a boolean. *)
Definition prop (v : jsval) (k : string) : jsval :=
  match v with
  | JObj props => lookup_prop k props
  | _ => JUndefined
  end.

(** [const { a, b, c } = v] throws a TypeError when [v] is undefined or null. *)
Definition destructurable (v : jsval) : bool :=
  match v with
  | JUndefined | JNull => false
  | _ => true
  end.

Definition cannot_destructure (property : string) (v : jsval) : exn :=
  JsError ("Cannot destructure property '" +:+ property
             +:+ "' of 'req.body' as it is "
             +:+ match v with JNull => "null" | _ => "undefined" end +:+ ".").

(** [v.length === 0]. *)
Definition length_is_zero (v : jsval) : bool :=
  match v with
  | JArr items => match items with [] => true | _ => false end
  | JStr s => bool_decide (s = "")
  | JObj props =>
      match lookup_prop "length" props with
      | JNum n => (n =? 0)%Z
      | _ => false
      end
  | _ => false
  end.

Definition join_with (sep : string) : list string → string :=
  fix go (l : list string) : string :=
    match l with
    | [] => ""
    | [s] => s
    | s :: rest => s +:+ sep +:+ go rest
    end.

(** ** The validation schema (lines 17-23)

    [schema] is a zod object schema.  zod parses the keys in the order of
    the shape and collects one list of issues; [safeParse] never throws.
    The syntax of e-mail addresses zod accepts is a parameter. *)

Inductive Role : Type := customer | provider.

Definition role_name (r : Role) : string :=
  match r with
  | customer => "customer"
  | provider => "provider"
  end.

Record JoinData : Type := {
  data_name : string;
  data_email : string;
  data_role : Role;
}.

Definition parsed_type (v : jsval) : string :=
  match v with
  | JUndefined => "undefined"
  | JNull => "null"
  | JBool _ => "boolean"
  | JNum _ => "number"
  | JStr _ => "string"
  | JArr _ => "array"
  | JObj _ => "object"
  end.

(** zod's default message for a value of the wrong type. *)
Definition invalid_type (expected : string) (v : jsval) : string :=
  match v with
  | JUndefined => "Required"
  | _ => "Expected " +:+ expected +:+ ", received " +:+ parsed_type v
  end.

Section routes.

(** The e-mail syntax accepted by [z.string().email()], and the key under
    which the store files an address. *)
Variable is_email : string → bool.
Variable normalize : string → string.

(** How the runtime prints a number ([Number.prototype.toString]). *)
Variable number_to_string : Z → string.

(** An own property of the name is there, whatever its value. *)
Definition has_own (k : string) (props : list (string * jsval)) : bool :=
  existsb (λ p : string * jsval, bool_decide (p.1 = k)) props.

(** All the strings, or nothing when one is missing. *)
Fixpoint all_some (l : list (option string)) : option (list string) :=
  match l with
  | [] => Some []
  | None :: _ => None
  | Some x :: rest =>
      match all_some rest with
      | Some xs => Some (x :: xs)
      | None => None
      end
  end.

(** [String(v)]; [None] is the TypeError "Cannot convert object to
    primitive value".  An array prints as its [join(",")], in which
    undefined and null elements print as the empty string.  A parsed object
    prints through [Object.prototype.toString], unless an own property
    [toString] hides it: that one is no function, and the conversion
    throws. *)
Fixpoint js_to_string (v : jsval) : option string :=
  match v with
  | JUndefined => Some "undefined"
  | JNull => Some "null"
  | JBool true => Some "true"
  | JBool false => Some "false"
  | JNum n => Some (number_to_string n)
  | JStr s => Some s
  | JArr items =>
      match all_some (map (λ x, match x with
                                | JUndefined | JNull => Some ""
                                | _ => js_to_string x
                                end) items) with
      | Some parts => Some (join_with "," parts)
      | None => None
      end
  | JObj props => if has_own "toString" props then None else Some "[object Object]"
  end.

Definition join_element (v : jsval) : option string :=
  match v with
  | JUndefined | JNull => Some ""
  | _ => js_to_string v
  end.

(** [items.join(sep)] *)
Definition array_join (sep : string) (items : list jsval) : option string :=
  match all_some (map join_element items) with
  | Some parts => Some (join_with sep parts)
  | None => None
  end.

(** [z.string().min(1, 'Name is required')] *)
Definition name_schema (v : jsval) : list string + string :=
  match v with
  | JStr s => if (String.length s <? 1)%nat then inl ["Name is required"] else inr s
  | _ => inl [invalid_type "string" v]
  end.

(** [z.string().email('Invalid email address')] *)
Definition email_schema (v : jsval) : list string + string :=
  match v with
  | JStr s => if is_email s then inr s else inl ["Invalid email address"]
  | _ => inl [invalid_type "string" v]
  end.

(** [z.enum(['customer', 'provider'], { required_error: 'Role is required' })] *)
Definition role_schema (v : jsval) : list string + Role :=
  match v with
  | JStr s =>
      if bool_decide (s = "customer") then inr customer
      else if bool_decide (s = "provider") then inr provider
      else inl ["Invalid enum value. Expected 'customer' | 'provider', received '"
                  +:+ s +:+ "'"]
  | JUndefined => inl ["Role is required"]
  | _ => inl ["Expected 'customer' | 'provider', received " +:+ parsed_type v]
  end.

Definition issues {A} (r : list string + A) : list string :=
  match r with
  | inl l => l
  | inr _ => []
  end.

(** [schema.safeParse({ name, email, role })]: the issues of the three
    keys in order, or the parsed data. *)
Definition safeParse (name email role : jsval) : list string + JoinData :=
  let rn := name_schema name in
  let re := email_schema email in
  let rr := role_schema role in
  match rn, re, rr with
  | inr n, inr e, inr r => inr {| data_name := n; data_email := e; data_role := r |}
  | _, _, _ => inl (issues rn ++ issues re ++ issues rr)%list
  end.

(** ** The world of the handlers *)

Record Subscriber : Type := {
  sub_name : string;
  sub_email : string;
  sub_role : Role;
  sub_joinedAt : string;
}.

(** What is handed to [resend.emails.send]: the welcome mail carries the
    React element [EmailTemplate({ email, name })], a bulk mail an HTML
    string. *)
Inductive Content : Type :=
| EmailTemplate (email name : string)
| Html (html : string).

Record Mail : Type := {
  mail_from : string;
  mail_to : jsval;
  mail_subject : jsval;
  mail_content : Content;
}.

(** The answer of one [resend.emails.send] call: [{ error: null }], an
    [{ error }] with its name and message, or a thrown exception. *)
Inductive SendResult : Type :=
| Delivered
| Refused (error_name error_message : string)
| Crashed (e : exn).

(** Writes the store has committed, in order (a record of the effects, not
    read by any handler). *)
Inductive StoreWrite : Type :=
| Inserted (key : string)
| Removed (key : string).

Record World : Type := {
  RESEND_API_KEY : option string;
  clock : string;
  store : gmap string Subscriber;
  journal : list StoreWrite;
  outbox : list (Mail * SendResult);
}.

(** What the collaborators do during one request: for each storage call in
    turn whether it throws, for each send in turn its answer.  A call past
    the end of its list works. *)
Record Script : Type := {
  store_faults : list (option exn);
  send_results : list SendResult;
}.

(** ** The monad: state and exceptions *)

Definition M (A : Type) : Type := World * Script → (exn + A) * (World * Script).

Definition ret {A} (a : A) : M A := λ c, (inr a, c).

Definition bind {A B} (m : M A) (k : A → M B) : M B :=
  λ c, match m c with
       | (inr a, c') => k a c'
       | (inl e, c') => (inl e, c')
       end.

Definition throw {A} (e : exn) : M A := λ c, (inl e, c).

(** [try { m } catch (e) { h e }] *)
Definition try_catch {A} (m : M A) (h : exn → M A) : M A :=
  λ c, match m c with
       | (inr a, c') => (inr a, c')
       | (inl e, c') => h e c'
       end.

Definition get_world : M World := λ c, (inr c.1, c).

Notation "x <- m ;; k" := (bind m (λ x, k))
  (at level 100, m at next level, right associativity).

(** ** The subscriber store ([lib/storage])

    Every call first meets the script: a scripted fault throws and leaves
    the store as it was. *)

Definition pop_fault (s : Script) : option exn * Script :=
  match store_faults s with
  | [] => (None, s)
  | f :: rest => (f, {| store_faults := rest; send_results := send_results s |})
  end.

Definition storage_call {A} (op : World → A * World) : M A :=
  λ c, match pop_fault c.2 with
       | (Some e, s') => (inl e, (c.1, s'))
       | (None, s') => let (a, w') := op c.1 in (inr a, (w', s'))
       end.

Definition put_record (k : string) (sub : Subscriber) (w : World) : World :=
  {| RESEND_API_KEY := RESEND_API_KEY w; clock := clock w;
     store := <[k := sub]> (store w);
     journal := journal w ++ [Inserted k];
     outbox := outbox w |}.

Definition drop_record (k : string) (w : World) : World :=
  {| RESEND_API_KEY := RESEND_API_KEY w; clock := clock w;
     store := delete k (store w);
     journal := journal w ++ [Removed k];
     outbox := outbox w |}.

(** Modelled from the spec: [addSubscriber] of [lib/storage], which is not
    among the sources.  The store is a key-value store keyed by the
    normalized e-mail address; adding is add-if-absent and answers whether
    the record was added. *)
Definition addSubscriber (sub : Subscriber) : M bool :=
  storage_call (λ w,
    let k := normalize (sub_email sub) in
    match store w !! k with
    | Some _ => (false, w)
    | None => (true, put_record k sub w)
    end).

(** Modelled from the spec: [deleteSubscriber] of [lib/storage], which is
    not among the sources.  Delete-by-key; answers whether a record was
    there. *)
Definition deleteSubscriber (email : string) : M bool :=
  storage_call (λ w,
    let k := normalize email in
    match store w !! k with
    | Some _ => (true, drop_record k w)
    | None => (false, w)
    end).

(** Modelled from the spec: [getAllSubscribers] of [lib/storage], which is
    not among the sources.  List-all: every record of the store. *)
Definition getAllSubscribers : M (list Subscriber) :=
  storage_call (λ w, ((map_to_list (store w)).*2, w)).

(** Modelled from the spec: [getSubscriberCount] of [lib/storage], which is
    not among the sources.  The number of records. *)
Definition getSubscriberCount : M nat :=
  storage_call (λ w, (size (store w), w)).

(** ** The mail provider

    [resend.emails.send(mail)]: every call is entered in the outbox with
    the answer it got, so the outbox lists the sends that were attempted. *)

Definition pop_send (s : Script) : SendResult * Script :=
  match send_results s with
  | [] => (Delivered, s)
  | r :: rest => (r, {| store_faults := store_faults s; send_results := rest |})
  end.

Definition post_mail (m : Mail) (r : SendResult) (w : World) : World :=
  {| RESEND_API_KEY := RESEND_API_KEY w; clock := clock w;
     store := store w; journal := journal w;
     outbox := outbox w ++ [(m, r)] |}.

Definition emails_send (m : Mail) : M (option (string * string)) :=
  λ c, let (r, s') := pop_send c.2 in
       let c' := (post_mail m r c.1, s') in
       match r with
       | Delivered => (inr None, c')
       | Refused n msg => (inr (Some (n, msg)), c')
       | Crashed e => (inl e, c')
       end.

(** [if (process.env.RESEND_API_KEY)]: set and not the empty string. *)
Definition configured (w : World) : bool :=
  match RESEND_API_KEY w with
  | Some k => negb (bool_decide (k = ""))
  | None => false
  end.

(** ** Responses *)

Record Response : Type := {
  status : nat;
  payload : jsval;
}.

(** [res.status(code).json({ success: false, message })] *)
Definition failure (code : nat) (message : string) : Response :=
  {| status := code;
     payload := JObj [("success", JBool false); ("message", JStr message)] |}.

(** [res.json({ success: true, message })] *)
Definition success (message : string) : Response :=
  {| status := 200;
     payload := JObj [("success", JBool true); ("message", JStr message)] |}.

Definition subscriber_json (sub : Subscriber) : jsval :=
  JObj [("name", JStr (sub_name sub)); ("email", JStr (sub_email sub));
        ("role", JStr (role_name (sub_role sub)));
        ("joinedAt", JStr (sub_joinedAt sub))].

Definition sender : string := "Steerify <onboarding@resend.dev>".

Definition welcome_subject : string := "Welcome to Steerify Waitlist! ðŸŽ‰".

Definition error_message (e : exn) : string :=
  match e with
  | JsError m => m
  | NotAnError => "Unknown error"
  end.

(** ** POST /join (lines 26-115) *)

(** Lines 62-99: the welcome mail.  [Some r] is the early [return] of the
    response [r], [None] falls through to line 101. *)
Definition send_welcome (email name : string) : M (option Response) :=
  w <- get_world ;;
  if configured w then
    try_catch
      (err <- emails_send {| mail_from := sender; mail_to := JStr email;
                             mail_subject := JStr welcome_subject;
                             mail_content := EmailTemplate email name |} ;;
       match err with
       | Some (_, msg) => ret (Some (failure 500 ("Email failed: " +:+ msg)))
       | None => ret None
       end)
      (λ emailError,
         ret (Some (failure 500 ("Email service error: " +:+ error_message emailError))))
  else ret (Some (failure 500 "Email service not configured")).

Definition post_join (body : jsval) : M Response :=
  try_catch
    (if negb (destructurable body) then throw (cannot_destructure "name" body) else
     let name := prop body "name" in
     let email := prop body "email" in
     let role := prop body "role" in
     if negb (truthy name) || negb (truthy email) || negb (truthy role) then
       ret (failure 400 "All fields are required")
     else
       match safeParse name email role with
       | inl errors =>
           match errors with
           | message :: _ => ret (failure 400 message)
           | [] => throw (JsError "Cannot read properties of undefined (reading 'message')")
           end
       | inr data =>
           w <- get_world ;;
           let subscriber := {| sub_name := data_name data;
                                sub_email := data_email data;
                                sub_role := data_role data;
                                sub_joinedAt := clock w |} in
           added <- addSubscriber subscriber ;;
           if negb added then
             ret (failure 409 "This email is already on the waitlist")
           else
             early <- send_welcome (data_email data) (data_name data) ;;
             match early with
             | Some response => ret response
             | None =>
                 count <- getSubscriberCount ;;
                 ret {| status := 200;
                        payload := JObj [("success", JBool true);
                                         ("message", JStr "You have been added to the waitlist! Check your email for confirmation.");
                                         ("count", JNum (Z.of_nat count))] |}
             end
       end)
    (λ error, ret (failure 500 "An unexpected error occurred. Please try again.")).

(** ** GET /count (lines 118-126) *)
Definition get_count : M Response :=
  try_catch
    (count <- getSubscriberCount ;;
     ret {| status := 200; payload := JObj [("count", JNum (Z.of_nat count))] |})
    (λ error, ret {| status := 200; payload := JObj [("count", JNum 0)] |}).

(** ** GET /subscribers (lines 129-143) *)
Definition get_subscribers : M Response :=
  try_catch
    (subscribers <- getAllSubscribers ;;
     ret {| status := 200;
            payload := JObj [("subscribers", JArr (map subscriber_json subscribers))] |})
    (λ error,
       ret {| status := 500;
              payload := JObj [("success", JBool false);
                               ("message", JStr "Error fetching subscribers");
                               ("subscribers", JArr [])] |}).

(** ** DELETE /subscriber/:email (lines 146-177) *)
Definition delete_subscriber (email : string) : M Response :=
  try_catch
    (if bool_decide (email = "") then ret (failure 400 "Email is required") else
     deleted <- deleteSubscriber email ;;
     if negb deleted then ret (failure 404 "Subscriber not found")
     else ret (success "Subscriber deleted successfully"))
    (λ error, ret (failure 500 "An unexpected error occurred while deleting subscriber.")).

(** ** POST /bulk-email (lines 180-232) *)

Definition newline : Ascii.ascii := Ascii.ascii_of_nat 10.

(** [text.replace(/\n/g, '<br/>')] *)
Fixpoint replace_newlines (text : string) : string :=
  match text with
  | EmptyString => EmptyString
  | String ch rest =>
      if Ascii.eqb ch newline then "<br/>" +:+ replace_newlines rest
      else String ch (replace_newlines rest)
  end.

Definition html_of (text : string) : string :=
  "<div style='font-family:sans-serif;line-height:1.5;'>"
    +:+ replace_newlines text +:+ "</div>".

(** The template literal of line 207: [body.replace] is a function only
    when [body] is a string. *)
Definition render_html (body : jsval) : M string :=
  match body with
  | JStr text => ret (html_of text)
  | _ => throw (JsError "body.replace is not a function")
  end.

(** [Promise.all(items.map(async item => f item))]: [map] starts every
    callback, so every one runs whatever the others do; the result is the
    list of their values, or a rejection when some callback threw. *)
Fixpoint promise_all_map {A} (f : jsval → M A) (items : list jsval) : M (list A) :=
  match items with
  | [] => ret []
  | item :: rest =>
      λ c, let (r, c1) := f item c in
           let (rs, c2) := promise_all_map f rest c1 in
           (match r, rs with
            | inl e, _ => inl e
            | inr _, inl e => inl e
            | inr a, inr l => inr (a :: l)
            end, c2)
  end.

(** Lines 202-210: the callback of [emails.map]. *)
Definition send_one (subject body : jsval) (email : jsval)
  : M (jsval * option (string * string)) :=
  html <- render_html body ;;
  error <- emails_send {| mail_from := sender; mail_to := email;
                          mail_subject := subject; mail_content := Html html |} ;;
  ret (email, error).

Definition post_bulk_email (req_body : jsval) : M Response :=
  if negb (destructurable req_body) then
    throw (cannot_destructure "subject" req_body)
  else
  let subject := prop req_body "subject" in
  let body := prop req_body "body" in
  let emails := prop req_body "emails" in
  w <- get_world ;;
  if negb (configured w) then
    ret (failure 500 "Resend API key not configured.")
  else if negb (truthy subject) || negb (truthy body) || negb (truthy emails)
          || length_is_zero emails then
    ret (failure 400 "Subject, body, and at least one recipient are required.")
  else
    try_catch
      (match emails with
       | JArr recipients =>
           results <- promise_all_map (send_one subject body) recipients ;;
           let failed := filter (λ r, is_Some r.2) results in
           if (0 <? length failed)%nat then
             match array_join ", " (failed.*1) with
             | Some names => ret (failure 500 ("Failed to send to: " +:+ names))
             | None => throw (JsError "Cannot convert object to primitive value")
             end
           else
             ret (success ("Sent to " +:+ pretty (length recipients) +:+ " subscriber(s)."))
       | _ => throw (JsError "emails.map is not a function")
       end)
      (λ err, ret (failure 500 "An error occurred while sending emails.")).

(** ** Serving requests *)

Inductive Request : Type :=
| Join (body : jsval)
| Count
| Subscribers
| DeleteSubscriber (email : string)
| BulkEmail (body : jsval).

Definition route (r : Request) : M Response :=
  match r with
  | Join body => post_join body
  | Count => get_count
  | Subscribers => get_subscribers
  | DeleteSubscriber email => delete_subscriber email
  | BulkEmail body => post_bulk_email body
  end.

(** A handler either sends a response or lets an exception out. *)
Inductive Outcome : Type :=
| Responded (r : Response)
| Unhandled (e : exn).

Definition serve (s : Script) (r : Request) (w : World) : Outcome * World :=
  match route r (w, s) with
  | (inr response, c) => (Responded response, c.1)
  | (inl e, c) => (Unhandled e, c.1)
  end.

(** The world after a sequence of requests, each with its script. *)
Fixpoint run (requests : list (Script * Request)) (w : World) : World :=
  match requests with
  | [] => w
  | (s, r) :: rest => run rest (serve s r w).2
  end.

Definition fresh_world (key : option string) (now : string) : World :=
  {| RESEND_API_KEY := key; clock := now; store := ∅; journal := []; outbox := [] |}.

Definition quiet : Script := {| store_faults := []; send_results := [] |}.

(** ** Vocabulary of the specification *)

(** The input constraints of a join request: a non-empty name, an e-mail
    address of valid syntax, a role that is [customer] or [provider]. *)
Definition valid_name (v : jsval) : bool :=
  match v with
  | JStr s => negb (bool_decide (s = ""))
  | _ => false
  end.

Definition valid_email (v : jsval) : bool :=
  match v with
  | JStr s => negb (bool_decide (s = "")) && is_email s
  | _ => false
  end.

Definition valid_role (v : jsval) : bool :=
  match v with
  | JStr s => bool_decide (s = "customer") || bool_decide (s = "provider")
  | _ => false
  end.

Definition valid_request (name email role : jsval) : bool :=
  valid_name name && valid_email email && valid_role role.

Definition is_string (v : jsval) : bool :=
  match v with JStr _ => true | _ => false end.

(** The checks a join request meets, in order, each with the message it
    is rejected with: the presence check of line 30, then the schema's
    checks key by key. *)
Definition constraints (name email role : jsval) : list (bool * string) :=
  [ (truthy name && truthy email && truthy role, "All fields are required");
    (is_string name, invalid_type "string" name);
    (valid_name name, "Name is required");
    (is_string email, invalid_type "string" email);
    (match email with JStr s => is_email s | _ => false end, "Invalid email address");
    (match role with JUndefined => false | _ => true end, "Role is required");
    (is_string role, "Expected 'customer' | 'provider', received " +:+ parsed_type role);
    (valid_role role,
     "Invalid enum value. Expected 'customer' | 'provider', received '"
       +:+ match role with JStr s => s | _ => "" end +:+ "'") ].

(** The message of the first constraint that does not hold. *)
Fixpoint first_violation (cs : list (bool * string)) : option string :=
  match cs with
  | [] => None
  | (true, _) :: rest => first_violation rest
  | (false, message) :: _ => Some message
  end.

(** The store files every record under the key of its own address. *)
Definition store_wf (w : World) : Prop :=
  ∀ k sub, store w !! k = Some sub → normalize (sub_email sub) = k.

Definition all_records (w : World) : list Subscriber := (map_to_list (store w)).*2.

(** The records the store lists for an address. *)
Definition records_for (email : string) (w : World) : list Subscriber :=
  filter (λ sub, normalize (sub_email sub) = normalize email) (all_records w).

#[local] Instance StoreWrite_eq_dec : EqDecision StoreWrite.
Proof. solve_decision. Defined.

(** Admission side effects per key: records persisted, records removed,
    welcome mails handed to the provider. *)
Definition admissions (k : string) (w : World) : nat :=
  length (filter (λ e, e = Inserted k) (journal w)).

Definition removals (k : string) (w : World) : nat :=
  length (filter (λ e, e = Removed k) (journal w)).

Definition welcome_key (m : Mail) : option string :=
  match mail_content m, mail_to m with
  | EmailTemplate _ _, JStr email => Some (normalize email)
  | _, _ => None
  end.

Definition welcomes (k : string) (w : World) : nat :=
  length (filter (λ mr, welcome_key mr.1 = Some k) (outbox w)).

(** The next storage call of a script works. *)
Definition storage_works (s : Script) : Prop := (pop_fault s).1 = None.

(** Lines of a text: the pieces between its newline characters. *)
Fixpoint lines (text : string) : list string :=
  match text with
  | EmptyString => [EmptyString]
  | String ch rest =>
      if Ascii.eqb ch newline then EmptyString :: lines rest
      else match lines rest with
           | [] => [String ch EmptyString]
           | l :: ls => String ch l :: ls
           end
  end.

(** The answers the provider gives to the next [n] sends of a script. *)
Fixpoint answers (s : Script) (n : nat) : list SendResult :=
  match n with
  | O => []
  | S n' => (pop_send s).1 :: answers (pop_send s).2 n'
  end.

(** The script left after [n] sends. *)
Fixpoint after_sends (s : Script) (n : nat) : Script :=
  match n with
  | O => s
  | S n' => after_sends (pop_send s).2 n'
  end.

(** The world with further sends entered in the outbox. *)
Definition post_all (sent : list (Mail * SendResult)) (w : World) : World :=
  {| RESEND_API_KEY := RESEND_API_KEY w; clock := clock w;
     store := store w; journal := journal w;
     outbox := outbox w ++ sent |}.

(** The mail the bulk handler sends to one recipient. *)
Definition bulk_mail (subject : jsval) (text : string) (email : jsval) : Mail :=
  {| mail_from := sender; mail_to := email; mail_subject := subject;
     mail_content := Html (html_of text) |}.

(** The [error] field of the provider's answer. *)
Definition error_of (r : SendResult) : option (string * string) :=
  match r with
  | Refused n msg => Some (n, msg)
  | _ => None
  end.

Definition refused (r : SendResult) : bool :=
  match r with Refused _ _ => true | _ => false end.

Definition crashed (r : SendResult) : bool :=
  match r with Crashed _ => true | _ => false end.

(** The recipients whose send was refused, in order. *)
Definition failed_recipients (recipients : list jsval) (rs : list SendResult)
  : list jsval :=
  (filter (λ p, refused p.2 = true) (zip recipients rs)).*1.

(** The same for a list of addresses. *)
Definition failed_addresses (addresses : list string) (rs : list SendResult)
  : list string :=
  (filter (λ p, refused p.2 = true) (zip addresses rs)).*1.

(** ** Further vocabulary of the statements *)

Definition status_of (o : Outcome) : option nat :=
  match o with
  | Responded r => Some (status r)
  | Unhandled _ => None
  end.

Definition listing (subs : list Subscriber) : Response :=
  {| status := 200;
     payload := JObj [("subscribers", JArr (map subscriber_json subs))] |}.

Definition subscriber_of (d : JoinData) (w : World) : Subscriber :=
  {| sub_name := data_name d; sub_email := data_email d;
     sub_role := data_role d; sub_joinedAt := clock w |}.

Definition welcome_mail (d : JoinData) : Mail :=
  {| mail_from := sender; mail_to := JStr (data_email d);
     mail_subject := JStr welcome_subject;
     mail_content := EmailTemplate (data_email d) (data_name d) |}.

Definition joined (count : nat) : Response :=
  {| status := 200;
     payload := JObj [("success", JBool true);
                      ("message", JStr "You have been added to the waitlist! Check your email for confirmation.");
                      ("count", JNum (Z.of_nat count))] |}.

Definition unexpected : Response :=
  failure 500 "An unexpected error occurred. Please try again.".

(** The message of the 500 answer when the welcome mail is not delivered. *)
Definition dispatch_failure (w : World) (s : Script) : option string :=
  if configured w then
    match (pop_send s).1 with
    | Delivered => None
    | Refused _ msg => Some ("Email failed: " +:+ msg)
    | Crashed e => Some ("Email service error: " +:+ error_message e)
    end
  else Some "Email service not configured".

(** A bulk-email request that passes the checks of lines 183-195 and
    whose body is a string and whose recipients are an array. *)
Definition sendable (req_body : jsval) (w : World)
    (subject : jsval) (text : string) (recipients : list jsval) : Prop :=
  configured w = true
  ∧ prop req_body "subject" = subject ∧ truthy subject = true
  ∧ prop req_body "body" = JStr text ∧ text ≠ ""
  ∧ prop req_body "emails" = JArr recipients ∧ recipients ≠ [].

(** What one request can do to the world: nothing, insert a record,
    insert a record and send its welcome mail, remove a record, or send
    bulk mails. *)
Inductive effect (w : World) : World → Prop :=
| effect_none : effect w w
| effect_insert d :
    store w !! normalize (data_email d) = None →
    effect w (put_record (normalize (data_email d)) (subscriber_of d w) w)
| effect_welcome d r :
    store w !! normalize (data_email d) = None →
    effect w (post_mail (welcome_mail d) r
                (put_record (normalize (data_email d)) (subscriber_of d w) w))
| effect_remove k :
    is_Some (store w !! k) →
    effect w (drop_record k w)
| effect_bulk subject text recipients rs :
    effect w (post_all (zip (map (bulk_mail subject text) recipients) rs) w).

(** The tallies of a key agree with the store: no more welcome mails
    than admissions, and one admission more than removals exactly when
    the key is in the store. *)
Definition tally_ok (k : string) (w : World) : Prop :=
  (welcomes k w ≤ admissions k w)%nat
  ∧ admissions k w = (removals k w + match store w !! k with Some _ => 1 | None => 0 end)%nat.

Definition newline_string : string := String newline EmptyString.

(** ** Sample inputs *)

Definition has_at (s : string) : bool :=
  existsb (Ascii.eqb (Ascii.ascii_of_nat 64)) (String.list_ascii_of_string s).

Definition join_body (name email role : string) : jsval :=
  JObj [("name", JStr name); ("email", JStr email); ("role", JStr role)].

Definition bulk_body (subject text : string) (emails : list string) : jsval :=
  JObj [("subject", JStr subject); ("body", JStr text);
        ("emails", JArr (map JStr emails))].

Definition configured_world : World := fresh_world (Some "re_123") "2025-06-01T10:00:00.000Z".
Definition unconfigured_world : World := fresh_world None "2025-06-01T10:00:00.000Z".

Definition ann : Subscriber :=
  {| sub_name := "Ann"; sub_email := "ann@example.com"; sub_role := customer;
     sub_joinedAt := "2025-06-01T10:00:00.000Z" |}.

(** The world after Ann joined: her record is in the store and her welcome
    mail went out. *)
Definition ann_joined : World :=
  post_mail
    (welcome_mail {| data_name := "Ann"; data_email := "ann@example.com";
                     data_role := customer |})
    Delivered
    (put_record "ann@example.com" ann configured_world).

Definition refusing : Script :=
  {| store_faults := []; send_results := [Refused "validation_error" "Invalid `to` field"] |}.

Definition b_refused : Script :=
  {| store_faults := [];
     send_results := [Delivered; Refused "validation_error" "bad address"; Delivered] |}.

Definition two_lines : string := "<b>Hi</b>" +:+ newline_string +:+ "<i>all</i>".

(** ** Vocabulary of the further properties *)

(** No storage call of the script throws. *)
Definition storage_calm (s : Script) : Prop :=
  Forall (λ f : option exn, f = None) (store_faults s).

(** The data a valid request is parsed to. *)
Definition join_data (name email : string) (r : Role) : JoinData :=
  {| data_name := name; data_email := email; data_role := r |}.

(** The world after an admission: the record is filed and the welcome mail
    is in the outbox with the provider's answer. *)
Definition joined_world (d : JoinData) (answer : SendResult) (w : World) : World :=
  post_mail (welcome_mail d) answer
    (put_record (normalize (data_email d)) (subscriber_of d w) w).

(** The [message] and [success] fields of a response. *)
Definition message_of (r : Response) : jsval := prop (payload r) "message".

Definition success_flag (r : Response) : jsval := prop (payload r) "success".

(** The status codes each route answers with. *)
Definition statuses (r : Request) : list nat :=
  match r with
  | Join _ => [200; 400; 409; 500]
  | Count => [200]
  | Subscribers => [200; 500]
  | DeleteSubscriber _ => [200; 400; 404; 500]
  | BulkEmail _ => [200; 400; 500]
  end.

(** The shapes of the answers of a route: a failure with one of the
    route's error codes, or the route's success payload. *)
Inductive answer : Request → Response → Prop :=
| answer_failure r code msg :
    code ≠ 200 → code ∈ statuses r →
    (match r with Join _ | DeleteSubscriber _ | BulkEmail _ => True | _ => False end) →
    answer r (failure code msg)
| answer_joined body count : answer (Join body) (joined count)
| answer_deleted email msg : answer (DeleteSubscriber email) (success msg)
| answer_sent body msg : answer (BulkEmail body) (success msg)
| answer_count count :
    answer Count {| status := 200; payload := JObj [("count", JNum count)] |}
| answer_listing subs : answer Subscribers (listing subs)
| answer_no_listing :
    answer Subscribers
      {| status := 500;
         payload := JObj [("success", JBool false);
                          ("message", JStr "Error fetching subscribers");
                          ("subscribers", JArr [])] |}.

(** Membership in a list given in full. *)
Ltac in_list :=
  repeat first [apply list_elem_of_here | apply list_elem_of_further].

(** A failure with one of the error codes of its route. *)
Ltac fail_answer := constructor; [done | simpl; in_list | done].

Definition is_array (v : jsval) : bool :=
  match v with JArr _ => true | _ => false end.

(** The generic answer of the bulk-email [catch] block. *)
Definition sending_failed : Response :=
  failure 500 "An error occurred while sending emails.".

(** The answer of the subscribers route when the store throws. *)
Definition listing_failed : Response :=
  {| status := 500;
     payload := JObj [("success", JBool false);
                      ("message", JStr "Error fetching subscribers");
                      ("subscribers", JArr [])] |}.

Fixpoint has_newline (text : string) : bool :=
  match text with
  | EmptyString => false
  | String ch rest => Ascii.eqb ch newline || has_newline rest
  end.

(** Further sample inputs. *)
Definition store_down : Script :=
  {| store_faults := [Some (JsError "ECONNRESET")]; send_results := [] |}.

Definition count_down : Script :=
  {| store_faults := [None; Some (JsError "ECONNRESET")]; send_results := [] |}.

(** Numbers printed in decimal, for the sample runs. *)
Definition decimal (n : Z) : string := pretty n.

Definition refused_then_throws : Script :=
  {| store_faults := [];
     send_results := [Delivered; Refused "validation_error" "bad address";
                      Crashed (JsError "socket hang up")] |}.

Definition second_throws : Script :=
  {| store_faults := [];
     send_results := [Delivered; Crashed (JsError "socket hang up"); Delivered] |}.


(** ** Stepping the monad *)

Lemma storage_call_ok {A} (op : World → A * World) w s :
  storage_works s →
  storage_call op (w, s) = (inr (op w).1, ((op w).2, (pop_fault s).2)).
Proof.
  unfold storage_works, storage_call. simpl.
  destruct (pop_fault s) as [[e|] s']; simpl; [done|].
  intros _. by destruct (op w).
Qed.

(** ** GET /count *)

(** C5: the count handler always answers 200 with a count: the number of
    records of the store when the count query works, 0 when it throws;
    it lets no exception out and leaves the world as it was. *)
Theorem count_never_fails (s : Script) (w : World) :
  serve s Count w =
    (Responded {| status := 200;
                  payload := JObj [("count",
                    JNum (match (pop_fault s).1 with
                          | Some _ => 0
                          | None => Z.of_nat (size (store w))
                          end))] |}, w).
Proof.
  unfold serve, route, get_count, getSubscriberCount, try_catch, bind, ret,
    storage_call.
  simpl. by destruct (pop_fault s) as [[e|] s'].
Qed.

(** ** POST /join: validation *)

Lemma post_join_fields body c :
  destructurable body = true →
  post_join body c =
    try_catch
      (let name := prop body "name" in
       let email := prop body "email" in
       let role := prop body "role" in
       if negb (truthy name) || negb (truthy email) || negb (truthy role) then
         ret (failure 400 "All fields are required")
       else
         match safeParse name email role with
         | inl errors =>
             match errors with
             | message :: _ => ret (failure 400 message)
             | [] => throw (JsError "Cannot read properties of undefined (reading 'message')")
             end
         | inr data =>
             w <- get_world ;;
             let subscriber := {| sub_name := data_name data;
                                  sub_email := data_email data;
                                  sub_role := data_role data;
                                  sub_joinedAt := clock w |} in
             added <- addSubscriber subscriber ;;
             if negb added then
               ret (failure 409 "This email is already on the waitlist")
             else
               early <- send_welcome (data_email data) (data_name data) ;;
               match early with
               | Some response => ret response
               | None =>
                   count <- getSubscriberCount ;;
                   ret {| status := 200;
                          payload := JObj [("success", JBool true);
                                           ("message", JStr "You have been added to the waitlist! Check your email for confirmation.");
                                           ("count", JNum (Z.of_nat count))] |}
               end
         end)
      (λ error, ret (failure 500 "An unexpected error occurred. Please try again.")) c.
Proof. intros H. unfold post_join. by rewrite H. Qed.

Lemma safeParse_valid name email role :
  valid_request name email role = true →
  ∃ n e r, name = JStr n ∧ email = JStr e ∧ role = JStr (role_name r)
    ∧ n ≠ "" ∧ e ≠ ""
    ∧ safeParse name email role
      = inr {| data_name := n; data_email := e; data_role := r |}.
Proof.
  unfold valid_request, valid_name, valid_email, valid_role.
  intros H. repeat (apply andb_prop in H as [H ?]).
  destruct name as [| | | |n| |]; try done.
  destruct email as [| | | |e| |]; try done.
  destruct role as [| | | |r| |]; try done.
  repeat match goal with
         | H : _ && _ = true |- _ => apply andb_prop in H as [? ?]
         | H : negb (bool_decide _) = true |- _ =>
             apply negb_true_iff, bool_decide_eq_false in H
         end.
  assert (Hn : (String.length n <? 1)%nat = false).
  { destruct n; [done|]. reflexivity. }
  unfold safeParse, name_schema, email_schema, role_schema.
  rewrite Hn. replace (is_email e) with true by done.
  match goal with H : _ || _ = true |- _ => apply orb_prop in H as [Hr|Hr] end;
    apply bool_decide_eq_true in Hr; subst r.
  - exists n, e, customer. by rewrite bool_decide_eq_true_2.
  - exists n, e, provider. repeat split; try done.
Qed.

Lemma length_lt_1 (s : string) : (String.length s <? 1)%nat = bool_decide (s = "").
Proof. by destruct s. Qed.

Lemma validation_rejects name email role :
  valid_request name email role = false →
  ∃ msg, first_violation (constraints name email role) = Some msg
    ∧ (if negb (truthy name) || negb (truthy email) || negb (truthy role)
       then msg = "All fields are required"
       else ∃ rest, safeParse name email role = inl (msg :: rest)).
Proof.
  unfold valid_request, constraints, safeParse, name_schema, email_schema,
    role_schema.
  intros H.
  destruct name as [| |[]|zn|sn|?|?]; simpl in *;
    try (destruct (zn =? 0)%Z; simpl);
    try (rewrite length_lt_1; destruct (bool_decide (sn = "")); simpl in * );
    eauto;
    (destruct email as [| |[]|ze|se|?|?]; simpl in *;
     try (destruct (ze =? 0)%Z; simpl);
     try (destruct (bool_decide (se = "")); simpl in * );
     try (destruct (is_email se); simpl in * );
     eauto;
     (destruct role as [| |[]|zr|sr|?|?]; simpl in *;
      try (destruct (zr =? 0)%Z; simpl);
      try (destruct (bool_decide (sr = "")); simpl in * );
      try (destruct (bool_decide (sr = "customer")); simpl in * );
      try (destruct (bool_decide (sr = "provider")); simpl in * );
      try done; eauto)).
Qed.

(** An invalid request leaves the world as it was. *)
Lemma serve_join_invalid s body w :
  destructurable body = true →
  valid_request (prop body "name") (prop body "email") (prop body "role") = false →
  (serve s (Join body) w).2 = w.
Proof.
  intros Hbody Hbad.
  destruct (validation_rejects _ _ _ Hbad) as (msg & _ & Hcode).
  unfold serve, route. rewrite post_join_fields by done.
  unfold try_catch. simpl.
  destruct (negb (truthy (prop body "name")) || negb (truthy (prop body "email"))
            || negb (truthy (prop body "role"))); [done|].
  by destruct Hcode as [rest ->].
Qed.

(** C2: a join request whose name is not a non-empty string, whose email
    is not a well-formed address, or whose role is not [customer] or
    [provider] is answered 400 with the message of the first constraint
    it violates, and the world is left as it was: no store write, no
    mail. *)
Theorem join_invalid_rejected (s : Script) (body : jsval) (w : World) :
  destructurable body = true →
  valid_request (prop body "name") (prop body "email") (prop body "role") = false →
  ∃ msg,
    first_violation
      (constraints (prop body "name") (prop body "email") (prop body "role"))
      = Some msg
    ∧ serve s (Join body) w = (Responded (failure 400 msg), w).
Proof.
  intros Hbody Hbad.
  destruct (validation_rejects _ _ _ Hbad) as (msg & Hfirst & Hcode).
  exists msg. split; [done|].
  unfold serve, route. rewrite post_join_fields by done.
  unfold try_catch. simpl.
  destruct (negb (truthy (prop body "name")) || negb (truthy (prop body "email"))
            || negb (truthy (prop body "role"))).
  - by subst msg.
  - destruct Hcode as [rest ->]. done.
Qed.

(** ** POST /bulk-email: the configuration check *)

Lemma post_bulk_email_unconfigured req_body w s :
  destructurable req_body = true →
  configured w = false →
  post_bulk_email req_body (w, s)
    = (inr (failure 500 "Resend API key not configured."), (w, s)).
Proof.
  intros Hb Hc. unfold post_bulk_email. rewrite Hb.
  unfold bind, get_world, ret. simpl. by rewrite Hc.
Qed.

Lemma post_bulk_email_undestructurable req_body c :
  destructurable req_body = false →
  post_bulk_email req_body c = (inl (cannot_destructure "subject" req_body), c).
Proof. intros Hb. unfold post_bulk_email. by rewrite Hb. Qed.

(** C7: while no API key is configured, a bulk-email request attempts no
    send to any recipient and leaves the world as it was; whenever the
    request carries a body to read the fields from, the answer is the
    500 "not configured" failure. *)
Theorem bulk_unconfigured_sends_nothing (s : Script) (req_body : jsval) (w : World) :
  configured w = false →
  (serve s (BulkEmail req_body) w).2 = w
  ∧ outbox (serve s (BulkEmail req_body) w).2 = outbox w
  ∧ (destructurable req_body = true →
     (serve s (BulkEmail req_body) w).1
       = Responded (failure 500 "Resend API key not configured.")).
Proof.
  intros Hc. unfold serve, route.
  destruct (destructurable req_body) eqn:Hb.
  - by rewrite post_bulk_email_unconfigured.
  - by rewrite post_bulk_email_undestructurable.
Qed.

(** C10: the configuration check of the bulk-email handler comes before
    its input validation: while no API key is configured, a request whose
    body lacks any of subject, body and emails (or has them all) is
    answered with the 500 "not configured" failure, and no request at all
    is answered 400. *)
Theorem bulk_config_check_precedes_validation
    (s : Script) (req_body : jsval) (w : World) :
  configured w = false →
  status_of (serve s (BulkEmail req_body) w).1 ≠ Some 400
  ∧ (destructurable req_body = true →
     serve s (BulkEmail req_body) w
       = (Responded (failure 500 "Resend API key not configured."), w)).
Proof.
  intros Hc. unfold serve, route.
  destruct (destructurable req_body) eqn:Hb.
  - by rewrite post_bulk_email_unconfigured.
  - by rewrite post_bulk_email_undestructurable.
Qed.

(** ** Exceptions at the boundary of the handlers *)

(** C9: a bulk-email request whose body was never parsed makes the
    handler throw at line 181, outside its [try] block: the exception
    leaves the handler, and no response is sent. *)
Theorem bulk_email_absent_body_unhandled (s : Script) (w : World) :
  serve s (BulkEmail JUndefined) w
    = (Unhandled (cannot_destructure "subject" JUndefined), w).
Proof. reflexivity. Qed.

(** The join handler reads the fields of the body inside its [try] block
    (line 28): there the same request is answered 500. *)
Lemma join_absent_body_caught (s : Script) (w : World) :
  serve s (Join JUndefined) w = (Responded unexpected, w).
Proof. reflexivity. Qed.

Lemma try_catch_responds (m : M Response) (r : Response) c :
  ∃ response c', try_catch m (λ _, ret r) c = (inr response, c').
Proof.
  unfold try_catch, ret. destruct (m c) as [[e|a] c']; eauto.
Qed.

(** The four other handlers answer every request, and so does the
    bulk-email handler once the fields of the body have been read. *)
Lemma serve_responds (s : Script) (r : Request) (w : World) :
  match r with
  | BulkEmail req_body => destructurable req_body = true
  | _ => True
  end →
  ∃ response, (serve s r w).1 = Responded response.
Proof.
  intros Hr. unfold serve.
  assert (∃ response c', route r (w, s) = (inr response, c')) as (resp & c' & ->);
    [|by eauto].
  destruct r as [body| | |email|req_body]; cbn [route];
    try apply try_catch_responds.
  unfold post_bulk_email. rewrite Hr. unfold bind, get_world. simpl.
  destruct (configured w); simpl; [|by eauto].
  match goal with |- context [if ?b then _ else _] => destruct b end;
    [by eauto|].
  apply try_catch_responds.
Qed.

(** ** The store: keys and records *)

Lemma store_wf_put k sub w :
  k = normalize (sub_email sub) → store_wf w → store_wf (put_record k sub w).
Proof.
  intros -> Hwf k' sub'. simpl. rewrite lookup_insert.
  case_decide; [by intros [= <-]|]. apply Hwf.
Qed.

Lemma store_wf_drop k w : store_wf w → store_wf (drop_record k w).
Proof.
  intros Hwf k' sub'. simpl. rewrite lookup_delete.
  case_decide; [done|]. apply Hwf.
Qed.

Lemma store_wf_post m r w : store_wf w → store_wf (post_mail m r w).
Proof. done. Qed.

Lemma filter_values_none {V} (P : V → Prop) `{!∀ v, Decision (P v)}
    (l : list (string * V)) :
  (∀ k v, (k, v) ∈ l → ¬ P v) → filter P (l.*2) = [].
Proof.
  induction l as [|[k v] l IH]; intros Hall; [done|].
  rewrite fmap_cons, filter_cons_False.
  - apply IH. intros k' v' Hin. apply (Hall k'). by right.
  - apply (Hall k). by left.
Qed.

Lemma filter_values_one {V} (P : V → Prop) `{!∀ v, Decision (P v)}
    (l : list (string * V)) k0 v0 :
  NoDup (l.*1) → (k0, v0) ∈ l →
  (∀ k v, (k, v) ∈ l → (P v ↔ k = k0)) →
  filter P (l.*2) = [v0].
Proof.
  induction l as [|[k v] l IH]; intros Hnd Hin HP; [by inversion Hin|].
  rewrite fmap_cons in Hnd. apply NoDup_cons in Hnd as [Hk Hnd].
  rewrite fmap_cons. simpl in *.
  apply elem_of_cons in Hin as [[= <- <-]|Hin].
  - rewrite filter_cons_True by (apply (HP k0); [by left|done]).
    f_equal. apply filter_values_none. intros k v Hkv HPv.
    apply (HP k v) in HPv; [|by right]. subst k.
    apply Hk. apply list_elem_of_fmap. by exists (k0, v).
  - assert (Hne : k ≠ k0).
    { intros ->. apply Hk. apply list_elem_of_fmap. by exists (k0, v0). }
    rewrite filter_cons_False by (intros HPv; apply Hne, (HP k v); [by left|done]).
    apply IH; [done|done|]. intros k' v' Hin'. apply HP. by right.
Qed.

(** A record filed in a well-formed store is the one record listed for
    its address. *)
Lemma records_for_present email sub w :
  store_wf w → store w !! normalize email = Some sub →
  records_for email w = [sub].
Proof.
  intros Hwf Hsub. unfold records_for, all_records.
  apply (filter_values_one _ _ (normalize email)).
  - apply NoDup_fst_map_to_list.
  - by apply elem_of_map_to_list.
  - intros k v Hkv. apply elem_of_map_to_list in Hkv.
    apply Hwf in Hkv. by rewrite Hkv.
Qed.

Lemma records_for_absent email w :
  store_wf w → store w !! normalize email = None → records_for email w = [].
Proof.
  intros Hwf Hnone. unfold records_for, all_records.
  apply filter_values_none. intros k v Hkv Heq.
  apply elem_of_map_to_list in Hkv. pose proof (Hwf _ _ Hkv) as Hk.
  rewrite Heq in Hk. subst k. by rewrite Hnone in Hkv.
Qed.

(** ** GET /subscribers and DELETE /subscriber/:email *)

Lemma serve_subscribers s w :
  storage_works s → serve s Subscribers w = (Responded (listing (all_records w)), w).
Proof.
  intros Hs.
  unfold serve, route, get_subscribers, getAllSubscribers, try_catch, bind.
  by rewrite storage_call_ok.
Qed.

Lemma serve_delete_absent s email w :
  email ≠ "" → storage_works s → store w !! normalize email = None →
  serve s (DeleteSubscriber email) w
    = (Responded (failure 404 "Subscriber not found"), w).
Proof.
  intros He Hs Hnone. unfold serve, route, delete_subscriber, deleteSubscriber.
  rewrite bool_decide_eq_false_2 by done.
  unfold try_catch, bind. rewrite storage_call_ok by done.
  simpl. by rewrite Hnone.
Qed.

Lemma serve_delete_present s email w :
  email ≠ "" → storage_works s → is_Some (store w !! normalize email) →
  serve s (DeleteSubscriber email) w
    = (Responded (success "Subscriber deleted successfully"),
       drop_record (normalize email) w).
Proof.
  intros He Hs [sub Hsub]. unfold serve, route, delete_subscriber, deleteSubscriber.
  rewrite bool_decide_eq_false_2 by done.
  unfold try_catch, bind. rewrite storage_call_ok by done.
  simpl. by rewrite Hsub.
Qed.

(** C6: deleting requires a non-empty email (400 otherwise); with no
    record under the key the answer is 404 and nothing changes; with a
    record the answer is a success, the record is removed from the store,
    a following listing has no record for the address, and a second
    delete of the same email is answered 404. *)
Theorem delete_subscriber_contract (s s1 s2 : Script) (email : string) (w : World) :
  email ≠ "" →
  storage_works s → storage_works s1 → storage_works s2 →
  store_wf w →
  serve s (DeleteSubscriber "") w = (Responded (failure 400 "Email is required"), w)
  ∧ match store w !! normalize email with
    | None =>
        serve s (DeleteSubscriber email) w
          = (Responded (failure 404 "Subscriber not found"), w)
    | Some _ =>
        ∃ w',
          serve s (DeleteSubscriber email) w
            = (Responded (success "Subscriber deleted successfully"), w')
          ∧ store w' = delete (normalize email) (store w)
          ∧ serve s1 Subscribers w' = (Responded (listing (all_records w')), w')
          ∧ records_for email w' = []
          ∧ serve s2 (DeleteSubscriber email) w'
              = (Responded (failure 404 "Subscriber not found"), w')
    end.
Proof.
  intros He Hs Hs1 Hs2 Hwf. split; [done|].
  destruct (store w !! normalize email) as [sub|] eqn:Hsub.
  - exists (drop_record (normalize email) w).
    assert (Hgone : store (drop_record (normalize email) w) !! normalize email = None)
      by apply lookup_delete_eq.
    split_and!.
    + apply serve_delete_present; [done|done|]. by rewrite Hsub.
    + done.
    + by apply serve_subscribers.
    + apply records_for_absent; [by apply store_wf_drop|done].
    + by apply serve_delete_absent.
  - by apply serve_delete_absent.
Qed.

(** ** POST /join: admission *)

(** The paths of the join handler through a request that passes
    validation, by what the store and the provider answer. *)
Lemma post_join_valid body d w s :
  destructurable body = true →
  valid_request (prop body "name") (prop body "email") (prop body "role") = true →
  safeParse (prop body "name") (prop body "email") (prop body "role") = inr d →
  post_join body (w, s) =
    let k := normalize (data_email d) in
    match pop_fault s with
    | (Some _, s1) => (inr unexpected, (w, s1))
    | (None, s1) =>
        match store w !! k with
        | Some _ => (inr (failure 409 "This email is already on the waitlist"), (w, s1))
        | None =>
            let w1 := put_record k (subscriber_of d w) w in
            if configured w then
              let w2 := post_mail (welcome_mail d) (pop_send s1).1 w1 in
              match (pop_send s1).1 with
              | Delivered =>
                  match pop_fault (pop_send s1).2 with
                  | (Some _, s3) => (inr unexpected, (w2, s3))
                  | (None, s3) => (inr (joined (size (store w2))), (w2, s3))
                  end
              | Refused _ msg =>
                  (inr (failure 500 ("Email failed: " +:+ msg)), (w2, (pop_send s1).2))
              | Crashed e =>
                  (inr (failure 500 ("Email service error: " +:+ error_message e)),
                   (w2, (pop_send s1).2))
              end
            else (inr (failure 500 "Email service not configured"), (w1, s1))
        end
    end.
Proof.
  intros Hbody Hvalid Hparse. rewrite post_join_fields by done.
  destruct (safeParse_valid _ _ _ Hvalid) as (n & e & r & Hn & He & Hr & Hn0 & He0 & _).
  cbv zeta. rewrite Hparse. rewrite Hn, He, Hr. simpl.
  rewrite !bool_decide_eq_false_2 by (done || by destruct r). simpl.
  unfold try_catch, bind, get_world, addSubscriber, storage_call. simpl.
  destruct (pop_fault s) as [[e1|] s1]; [done|]. simpl.
  destruct (store w !! normalize (data_email d)) as [old|]; [done|]. simpl.
  unfold send_welcome, bind, get_world, try_catch, emails_send. simpl.
  change (configured (put_record _ _ w)) with (configured w).
  destruct (configured w); [|done]. simpl.
  destruct (pop_send s1) as [[|en em|e1] s2]; simpl; try done.
  unfold getSubscriberCount, storage_call. simpl.
  by destruct (pop_fault s2) as [[e2|] s3].
Qed.

Lemma pop_send_after_fault s :
  pop_send (pop_fault s).2 =
  ((pop_send s).1,
   {| store_faults := store_faults (pop_fault s).2;
      send_results := send_results (pop_send s).2 |}).
Proof.
  unfold pop_send, pop_fault.
  destruct s as [[|f fs] [|r rs]]; reflexivity.
Qed.

(** C3: when a valid join request for an address not yet in the store
    meets an unconfigured mail integration, a refused send or a send
    that throws, the answer is a 500 failure, while the record inserted
    just before stays in the store: the insertion is the only write, and
    nothing removes it. *)
Theorem join_mail_failure_keeps_record
    (s : Script) (body : jsval) (email : string) (w : World) :
  destructurable body = true →
  valid_request (prop body "name") (prop body "email") (prop body "role") = true →
  prop body "email" = JStr email →
  store w !! normalize email = None →
  storage_works s →
  configured w = false ∨ (pop_send s).1 ≠ Delivered →
  ∃ msg sub w',
    dispatch_failure w s = Some msg
    ∧ serve s (Join body) w = (Responded (failure 500 msg), w')
    ∧ sub_email sub = email
    ∧ store w' = <[normalize email := sub]> (store w)
    ∧ journal w' = (journal w ++ [Inserted (normalize email)])%list.
Proof.
  intros Hbody Hvalid Hemail Hfree Hs Hfail.
  destruct (safeParse_valid _ _ _ Hvalid)
    as (n & e & r & Hn & He & Hr & Hn0 & He0 & Hparse).
  rewrite Hemail in He. injection He as <-.
  unfold serve, route. rewrite (post_join_valid _ _ _ _ Hbody Hvalid Hparse).
  unfold storage_works in Hs. unfold dispatch_failure.
  destruct (pop_fault s) as [f s1] eqn:Hpop. simpl in Hs. subst f.
  cbv zeta. cbn [data_email]. rewrite Hfree.
  replace s1 with (pop_fault s).2 by by rewrite Hpop.
  rewrite pop_send_after_fault. cbn [fst snd].
  destruct (configured w) eqn:Hc.
  - destruct Hfail as [?|Hfail]; [done|].
    destruct (pop_send s).1 as [|en em|ex]; [done| |];
      (eexists _, (subscriber_of (Build_JoinData n email r) w), _;
       split_and!; reflexivity).
  - eexists _, (subscriber_of (Build_JoinData n email r) w), _;
      split_and!; reflexivity.
Qed.

(** ** POST /bulk-email: the sends *)

Lemma post_all_nil w : post_all [] w = w.
Proof. destruct w. unfold post_all. simpl. by rewrite app_nil_r. Qed.

Lemma post_all_cons m r sent w :
  post_all sent (post_mail m r w) = post_all ((m, r) :: sent) w.
Proof. unfold post_all, post_mail. simpl. by rewrite <- app_assoc. Qed.

Lemma send_one_step subject text email w s :
  send_one subject (JStr text) email (w, s) =
    (match (pop_send s).1 with
     | Crashed e => inl e
     | a => inr (email, error_of a)
     end,
     (post_mail (bulk_mail subject text email) (pop_send s).1 w, (pop_send s).2)).
Proof.
  unfold send_one, bind, render_html, ret, emails_send. simpl.
  by destruct (pop_send s) as [[|en em|ex] s1].
Qed.

(** With a string body every recipient gets its send, in order, whatever
    the other sends answer; when no send throws, the results pair each
    recipient with the error of its answer. *)
Lemma promise_all_map_sends subject text recipients w s :
  let rs := answers s (length recipients) in
  let r := promise_all_map (send_one subject (JStr text)) recipients (w, s) in
  r.2 = (post_all (zip (map (bulk_mail subject text) recipients) rs) w,
         after_sends s (length recipients))
  ∧ (Forall (λ a, crashed a = false) rs →
     r.1 = inr (zip recipients (map error_of rs))).
Proof.
  revert w s. induction recipients as [|email rest IH]; intros w s; simpl.
  - by rewrite post_all_nil.
  - rewrite send_one_step.
    destruct (IH (post_mail (bulk_mail subject text email) (pop_send s).1 w)
                (pop_send s).2) as [Hw Hv].
    destruct (promise_all_map (send_one subject (JStr text)) rest _)
      as [v c2]; simpl in *; subst c2.
    split; [by rewrite post_all_cons|].
    intros Hall. apply Forall_cons in Hall as [Ha Hall].
    rewrite (Hv Hall). by destruct (pop_send s).1.
Qed.

(** With a body that is not a string no send is attempted. *)
Lemma promise_all_map_no_sends subject body recipients c :
  is_string body = false →
  (promise_all_map (send_one subject body) recipients c).2 = c.
Proof.
  intros Hb. revert c. induction recipients as [|email rest IH]; intros c; [done|].
  simpl. unfold send_one at 1, bind, render_html.
  destruct body; try done; simpl;
    specialize (IH c);
    destruct (promise_all_map _ rest c) as [v c2]; simpl in *; by subst.
Qed.

Lemma sendable_destructurable req_body w subject text recipients :
  sendable req_body w subject text recipients → destructurable req_body = true.
Proof.
  intros (_ & _ & _ & Hb & _). by destruct req_body.
Qed.

Lemma post_bulk_email_sendable req_body w s subject text recipients :
  sendable req_body w subject text recipients →
  post_bulk_email req_body (w, s) =
    try_catch
      (results <- promise_all_map (send_one subject (JStr text)) recipients ;;
       let failed := filter (λ r, is_Some r.2) results in
       if (0 <? length failed)%nat then
         match array_join ", " (failed.*1) with
         | Some names => ret (failure 500 ("Failed to send to: " +:+ names))
         | None => throw (JsError "Cannot convert object to primitive value")
         end
       else
         ret (success ("Sent to " +:+ pretty (length recipients) +:+ " subscriber(s).")))
      (λ err, ret (failure 500 "An error occurred while sending emails."))
      (w, s).
Proof.
  intros Hs. pose proof (sendable_destructurable _ _ _ _ _ Hs) as Hd.
  destruct Hs as (Hc & Hsub & Hsubj & Hbody & Htext & Hemails & Hne).
  unfold post_bulk_email. rewrite Hd, Hsub, Hbody, Hemails.
  unfold bind at 1, get_world. simpl. rewrite Hc, Hsubj.
  rewrite bool_decide_eq_false_2 by done. simpl.
  by destruct recipients.
Qed.

Lemma filter_refused recipients rs :
  (filter (λ r : jsval * option (string * string), is_Some r.2)
     (zip recipients (map error_of rs))).*1
  = failed_recipients recipients rs.
Proof.
  unfold failed_recipients. revert rs.
  induction recipients as [|x xs IH]; intros [|r rs]; simpl; try done.
  rewrite !filter_cons. simpl.
  destruct r as [|en em|ex]; simpl; repeat case_decide; simpl;
    try (by f_equal); try done;
    match goal with
    | H : is_Some None |- _ => by destruct H
    | H : ¬ is_Some (Some _) |- _ => by destruct H
    end.
Qed.

(** The sends of a sendable request: all of them enter the outbox, and
    when none throws the answer names the refused recipients (or is the
    generic failure when one of them cannot be printed), or reports
    success when there is none. *)
Lemma serve_bulk_sendable req_body w s subject text recipients :
  sendable req_body w subject text recipients →
  let rs := answers s (length recipients) in
  (serve s (BulkEmail req_body) w).2
    = post_all (zip (map (bulk_mail subject text) recipients) rs) w
  ∧ (Forall (λ a, crashed a = false) rs →
     (serve s (BulkEmail req_body) w).1 =
       Responded
         (match failed_recipients recipients rs with
          | [] => success ("Sent to " +:+ pretty (length recipients)
                            +:+ " subscriber(s).")
          | failed =>
              match array_join ", " failed with
              | Some names => failure 500 ("Failed to send to: " +:+ names)
              | None => sending_failed
              end
          end)).
Proof.
  intros Hs rs. unfold serve, route.
  rewrite (post_bulk_email_sendable _ _ _ _ _ _ Hs).
  destruct (promise_all_map_sends subject text recipients w s) as [Hw Hv].
  fold rs in Hw, Hv. unfold try_catch, bind.
  destruct (promise_all_map (send_one subject (JStr text)) recipients (w, s))
    as [[e|results] c] eqn:Hrun; simpl in *; subst c.
  - split; [done|]. intros Hall. by specialize (Hv Hall).
  - split.
    + destruct (0 <? _)%nat; [|done]. by destruct (array_join _ _).
    + intros Hall. specialize (Hv Hall). injection Hv as ->.
      pose proof (filter_refused recipients rs) as Hf.
      destruct (failed_recipients recipients rs) as [|f fs] eqn:Hfailed.
      * apply fmap_nil_inv in Hf. rewrite Hf. done.
      * rewrite <- Hf. rewrite <- Hf in Hfailed.
        destruct (filter _ _) as [|f0 fs0] eqn:Hfl; [done|]. simpl.
        by destruct (array_join _ _).
Qed.

(** A send that throws turns the answer into the generic failure of the
    [catch] block, which names no recipient. *)
Lemma bulk_crash_generic s req_body w subject text recipients :
  sendable req_body w subject text recipients →
  Exists (λ a, crashed a = true) (answers s (length recipients)) →
  (serve s (BulkEmail req_body) w).1
    = Responded (failure 500 "An error occurred while sending emails.").
Proof.
  intros Hs Hex. unfold serve, route.
  rewrite (post_bulk_email_sendable _ _ _ _ _ _ Hs).
  assert (∃ e c, promise_all_map (send_one subject (JStr text)) recipients (w, s)
                 = (inl e, c)) as (e & c & Hrun).
  { clear Hs. revert w s Hex.
    induction recipients as [|email rest IH]; intros w s Hex; simpl in *.
    - by apply Exists_nil in Hex.
    - rewrite send_one_step. apply Exists_cons in Hex as [Ha|Hex].
      + destruct (pop_send s).1; try done.
        destruct (promise_all_map _ rest _); eauto.
      + destruct (IH (post_mail (bulk_mail subject text email) (pop_send s).1 w)
                    _ Hex) as (e & c & ->).
        destruct (pop_send s).1; eauto. }
  unfold try_catch, bind. by rewrite Hrun.
Qed.

Lemma answers_length s n : length (answers s n) = n.
Proof. revert s. induction n as [|n IH]; intros s; simpl; [done|]. by rewrite IH. Qed.

Lemma crashed_cases rs :
  if existsb crashed rs then Exists (λ a, crashed a = true) rs
  else Forall (λ a, crashed a = false) rs.
Proof.
  induction rs as [|a rs IH]; simpl; [done|].
  destruct (crashed a) eqn:Ha; simpl.
  - by left.
  - destruct (existsb crashed rs); [by right|by constructor].
Qed.

Lemma failed_strings addresses rs :
  failed_recipients (map JStr addresses) rs
  = map JStr (failed_addresses addresses rs).
Proof.
  unfold failed_recipients, failed_addresses. revert rs.
  induction addresses as [|x xs IH]; intros [|r rs]; simpl; try done.
  rewrite !filter_cons. simpl. case_decide; simpl; by rewrite IH.
Qed.

Lemma array_join_strings sep l : array_join sep (map JStr l) = Some (join_with sep l).
Proof.
  unfold array_join.
  assert (Hall : all_some (map join_element (map JStr l)) = Some l).
  { induction l as [|x l IH]; [done|]. simpl. by rewrite IH. }
  by rewrite Hall.
Qed.

Lemma failed_recipients_nonempty recipients rs :
  length rs = length recipients →
  Forall (λ a, crashed a = false) rs →
  Exists (λ a, a ≠ Delivered) rs →
  failed_recipients recipients rs ≠ [].
Proof.
  unfold failed_recipients. revert rs.
  induction recipients as [|x xs IH]; intros [|r rs] Hlen Hall Hex; simpl in *;
    try done; try by apply Exists_nil in Hex.
  apply Forall_cons in Hall as [Hr Hall]. rewrite filter_cons. simpl.
  destruct r as [|en em|ex]; simpl in *; try done.
  apply Exists_cons in Hex as [?|Hex]; [done|].
  apply IH; [lia|done|done].
Qed.

(** C4 (amended): when a send of a bulk-email request fails, the answer
    is a 500 failure and every send, the delivered ones included, is in the
    outbox and nothing takes it back.  When no send throws, at least one
    recipient was refused and the message is the refused recipients, in
    order, joined by a comma and a space: for recipients that are strings
    these are exactly the refused addresses; a refused recipient that
    cannot be printed makes the [join] throw, and the answer is the generic
    one.  When a send throws, the answer is the generic one of the [catch]
    block and names no recipient. *)
Theorem bulk_failure_names_failed
    (s : Script) (req_body : jsval) (w : World)
    (subject : jsval) (text : string) (recipients : list jsval) :
  sendable req_body w subject text recipients →
  Exists (λ a, a ≠ Delivered) (answers s (length recipients)) →
  serve s (BulkEmail req_body) w =
    (Responded
       (if existsb crashed (answers s (length recipients)) then sending_failed
        else match array_join ", "
                     (failed_recipients recipients (answers s (length recipients)))
             with
             | Some names => failure 500 ("Failed to send to: " +:+ names)
             | None => sending_failed
             end),
     post_all (zip (map (bulk_mail subject text) recipients)
                   (answers s (length recipients))) w)
  ∧ (existsb crashed (answers s (length recipients)) = false →
     failed_recipients recipients (answers s (length recipients)) ≠ [])
  ∧ (∀ addresses : list string,
       recipients = map JStr addresses →
       array_join ", " (failed_recipients recipients (answers s (length recipients)))
       = Some (join_with ", "
                 (failed_addresses addresses (answers s (length recipients))))).
Proof.
  intros Hs Hex.
  destruct (serve_bulk_sendable _ _ s _ _ _ Hs) as [Hw Hv].
  pose proof (crashed_cases (answers s (length recipients))) as Hcases.
  split_and!.
  - destruct (existsb crashed (answers s (length recipients))).
    + pose proof (bulk_crash_generic s _ _ _ _ _ Hs Hcases) as Hanswer.
      destruct (serve s (BulkEmail req_body) w) as [o w']. simpl in *. by subst.
    + pose proof (failed_recipients_nonempty recipients _
                    (answers_length s (length recipients)) Hcases Hex) as Hne.
      specialize (Hv Hcases).
      destruct (failed_recipients recipients (answers s (length recipients)))
        as [|f fs]; [done|].
      destruct (serve s (BulkEmail req_body) w) as [o w']. simpl in *. by subst.
  - intros Hcalm. rewrite Hcalm in Hcases.
    by apply failed_recipients_nonempty; [apply answers_length| |].
  - intros addresses ->. by rewrite failed_strings, array_join_strings.
Qed.

(** ** What a request can do to the world *)

Lemma serve_join_effect s body w : effect w (serve s (Join body) w).2.
Proof.
  destruct (destructurable body) eqn:Hd;
    [|unfold serve, route, post_join, try_catch; rewrite Hd; simpl; constructor].
  destruct (valid_request (prop body "name") (prop body "email") (prop body "role"))
    eqn:Hvalid.
  - destruct (safeParse_valid _ _ _ Hvalid) as (n & e & r & _ & _ & _ & _ & _ & Hparse).
    unfold serve, route. rewrite (post_join_valid _ _ _ _ Hd Hvalid Hparse).
    cbv zeta.
    destruct (pop_fault s) as [[e1|] s1]; [constructor|].
    destruct (store w !! _) eqn:Hfree; [constructor|].
    destruct (configured w); [|by constructor].
    destruct (pop_send s1).1; simpl; try by constructor.
    destruct (pop_fault _) as [[e2|] s3]; by constructor.
  - rewrite (serve_join_invalid s body w Hd Hvalid). constructor.
Qed.

Lemma sendable_checks req_body w subject text recipients :
  sendable req_body w subject text recipients →
  destructurable req_body = true ∧ configured w = true
  ∧ truthy (prop req_body "subject") = true
  ∧ truthy (prop req_body "body") = true
  ∧ truthy (prop req_body "emails") = true
  ∧ length_is_zero (prop req_body "emails") = false
  ∧ prop req_body "body" = JStr text
  ∧ prop req_body "emails" = JArr recipients.
Proof.
  intros Hs. pose proof (sendable_destructurable _ _ _ _ _ Hs) as Hd.
  destruct Hs as (Hc & <- & Hsubj & Hbody & Htext & Hemails & Hne).
  rewrite Hbody, Hemails. simpl.
  rewrite bool_decide_eq_false_2 by done. by destruct recipients.
Qed.

(** A bulk-email request either is not sendable and leaves the world as
    it was, or is sendable. *)
Lemma serve_bulk_world s req_body w :
  ((serve s (BulkEmail req_body) w).2 = w
   ∧ ∀ subject text recipients, ¬ sendable req_body w subject text recipients)
  ∨ ∃ subject text recipients, sendable req_body w subject text recipients.
Proof.
  destruct (destructurable req_body) eqn:Hd.
  2: { left. split; [unfold serve, route; by rewrite post_bulk_email_undestructurable|].
       intros ??? Hs%sendable_checks. destruct Hs as (? & _). congruence. }
  destruct (configured w) eqn:Hc.
  2: { left. split; [unfold serve, route; by rewrite post_bulk_email_unconfigured|].
       intros ??? Hs%sendable_checks. destruct Hs as (_ & ? & _). congruence. }
  unfold serve, route, post_bulk_email. rewrite Hd.
  unfold bind at 1, get_world. simpl. rewrite Hc. simpl.
  destruct (truthy (prop req_body "subject")) eqn:Hsubj.
  2: { left. split; [done|]. intros ??? Hs%sendable_checks.
       destruct Hs as (_ & _ & ? & _). congruence. }
  destruct (truthy (prop req_body "body")) eqn:Hbody.
  2: { left. split; [done|]. intros ??? Hs%sendable_checks.
       destruct Hs as (_ & _ & _ & ? & _). congruence. }
  destruct (truthy (prop req_body "emails")) eqn:Hemails.
  2: { left. split; [done|]. intros ??? Hs%sendable_checks.
       destruct Hs as (_ & _ & _ & _ & ? & _). congruence. }
  destruct (length_is_zero (prop req_body "emails")) eqn:Hzero.
  { left. split; [done|]. intros ??? Hs%sendable_checks.
    destruct Hs as (_ & _ & _ & _ & _ & ? & _). congruence. }
  simpl.
  destruct (prop req_body "emails") as [| | | | |recipients|] eqn:He;
    try (left; split; [done|]; intros ??? Hs%sendable_checks;
         destruct Hs as (_ & _ & _ & _ & _ & _ & _ & ?); congruence).
  destruct (prop req_body "body") as [| | | |text| |] eqn:Hb.
  5: { right. exists (prop req_body "subject"), text, recipients.
       unfold sendable. rewrite Hb, He. split_and!; try done.
       - simpl in Hbody. by apply negb_true_iff, bool_decide_eq_false in Hbody.
       - by destruct recipients. }
  all: left; (split;
    [|intros ??? Hs%sendable_checks;
      destruct Hs as (_ & _ & _ & _ & _ & _ & ? & _); congruence]);
    unfold try_catch, bind;
    match goal with
    | |- context [promise_all_map (send_one ?a ?b) ?l ?c] =>
        pose proof (promise_all_map_no_sends a b l c eq_refl) as Hno';
        destruct (promise_all_map (send_one a b) l c) as [[e|results] c'];
        simpl in Hno'; subst c'
    end; try done;
    (destruct (0 <? _)%nat; [|done]); by destruct (array_join _ _).
Qed.

Lemma serve_effect s r w : effect w (serve s r w).2.
Proof.
  destruct r as [body| | |email|req_body].
  - apply serve_join_effect.
  - replace (serve s Count w).2 with w; [constructor|].
    unfold serve, route, get_count, getSubscriberCount, try_catch, bind,
      storage_call. simpl. by destruct (pop_fault s) as [[e|] s'].
  - replace (serve s Subscribers w).2 with w; [constructor|].
    unfold serve, route, get_subscribers, getAllSubscribers, try_catch, bind,
      storage_call. simpl. by destruct (pop_fault s) as [[e|] s'].
  - unfold serve, route, delete_subscriber, deleteSubscriber, try_catch, bind,
      storage_call.
    case_bool_decide; [constructor|]. simpl.
    destruct (pop_fault s) as [[e|] s']; [constructor|].
    destruct (store w !! normalize email) eqn:Hk; simpl; [|constructor].
    by apply effect_remove.
  - destruct (serve_bulk_world s req_body w)
      as [[-> _]|(subject & text & recipients & Hs)]; [constructor|].
    destruct (serve_bulk_sendable _ _ s _ _ _ Hs) as [-> _]. constructor.
Qed.

(** ** Invariants of the world *)

Lemma effect_store_wf w w' : effect w w' → store_wf w → store_wf w'.
Proof.
  intros [] Hwf; try done.
  - by apply store_wf_put.
  - by apply store_wf_post, store_wf_put.
  - by apply store_wf_drop.
Qed.

Lemma run_store_wf requests w : store_wf w → store_wf (run requests w).
Proof.
  revert w. induction requests as [|[s r] rest IH]; intros w Hwf; [done|].
  simpl. apply IH. by eapply effect_store_wf, Hwf; apply serve_effect.
Qed.

Lemma fresh_world_wf key now : store_wf (fresh_world key now).
Proof. intros k sub. simpl. by rewrite lookup_empty. Qed.

Lemma bulk_mails_no_welcome k subject text recipients rs :
  filter (λ mr : Mail * SendResult, welcome_key mr.1 = Some k)
    (zip (map (bulk_mail subject text) recipients) rs) = [].
Proof.
  revert rs. induction recipients as [|x xs IH]; intros [|r rs]; simpl; try done.
  rewrite filter_cons_False by done. apply IH.
Qed.

Lemma effect_tally w w' :
  effect w w' → (∀ k, tally_ok k w) → ∀ k, tally_ok k w'.
Proof.
  intros Heff Hok k. destruct (Hok k) as [Hwel Hadm].
  unfold tally_ok, welcomes, admissions, removals in *.
  destruct Heff as [|d Hfree|d r Hfree|k' [old Hold]|subject text recipients rs];
    simpl.
  - done.
  - rewrite !filter_app, !length_app, !filter_cons, !filter_nil.
    rewrite lookup_insert.
    repeat case_decide; simplify_eq/=; try rewrite Hfree in Hadm; lia.
  - rewrite !filter_app, !length_app, !filter_cons, !filter_nil.
    rewrite lookup_insert. simpl.
    change (welcome_key (welcome_mail d)) with (Some (normalize (data_email d))).
    repeat case_decide; simplify_eq/=; try rewrite Hfree in Hadm; lia.
  - rewrite !filter_app, !length_app, !filter_cons, !filter_nil.
    rewrite lookup_delete.
    repeat case_decide; simplify_eq/=; try rewrite Hold in Hadm; lia.
  - rewrite filter_app, bulk_mails_no_welcome, app_nil_r. done.
Qed.

Lemma run_tally requests w :
  (∀ k, tally_ok k w) → ∀ k, tally_ok k (run requests w).
Proof.
  revert w. induction requests as [|[s r] rest IH]; intros w Hok; [done|].
  simpl. apply IH. by eapply effect_tally, Hok; apply serve_effect.
Qed.

Lemma fresh_world_tally key now k : tally_ok k (fresh_world key now).
Proof. unfold tally_ok. simpl. by rewrite lookup_empty. Qed.

(** ** The dedup guarantee *)

Lemma serve_join_duplicate s body email old w :
  destructurable body = true →
  valid_request (prop body "name") (prop body "email") (prop body "role") = true →
  prop body "email" = JStr email →
  store w !! normalize email = Some old →
  storage_works s →
  serve s (Join body) w
    = (Responded (failure 409 "This email is already on the waitlist"), w).
Proof.
  intros Hbody Hvalid Hemail Hold Hs.
  destruct (safeParse_valid _ _ _ Hvalid)
    as (n & e & r & Hn & He & Hr & Hn0 & He0 & Hparse).
  rewrite Hemail in He. injection He as <-.
  unfold serve, route. rewrite (post_join_valid _ _ _ _ Hbody Hvalid Hparse).
  unfold storage_works in Hs.
  destruct (pop_fault s) as [f s1]. simpl in Hs. subst f.
  cbv zeta. cbn [data_email]. by rewrite Hold.
Qed.

(** A join request for an address that has a record changes nothing,
    whatever else the request holds and whatever the store answers. *)
Lemma serve_join_known s body email old w :
  prop body "email" = JStr email →
  store w !! normalize email = Some old →
  (serve s (Join body) w).2 = w.
Proof.
  intros Hemail Hold.
  assert (Hbody : destructurable body = true) by by destruct body.
  destruct (valid_request (prop body "name") (prop body "email") (prop body "role"))
    eqn:Hvalid; [|by apply serve_join_invalid].
  destruct (safeParse_valid _ _ _ Hvalid)
    as (n & e & r & Hn & He & Hr & Hn0 & He0 & Hparse).
  rewrite Hemail in He. injection He as <-.
  unfold serve, route. rewrite (post_join_valid _ _ _ _ Hbody Hvalid Hparse).
  cbv zeta. cbn [data_email]. rewrite Hold.
  by destruct (pop_fault s) as [[e|] s1].
Qed.

(** C1 (amended): a join request for an address that already has a record
    sends no mail and writes nothing, so the world is as it was and the
    store still lists exactly one record for the address; the answer is
    409 when the request passes validation and the store answers.  Over
    any sequence of requests from the empty store an address is admitted
    at most once more often than it was deleted, with no more welcome
    mails than admissions. *)
Theorem join_duplicate_conflict :
  (∀ (s : Script) (body : jsval) (email : string) (old : Subscriber) (w : World),
     prop body "email" = JStr email →
     store_wf w →
     store w !! normalize email = Some old →
     (serve s (Join body) w).2 = w
     ∧ records_for email (serve s (Join body) w).2 = [old]
     ∧ (valid_request (prop body "name") (prop body "email") (prop body "role") = true →
        storage_works s →
        (serve s (Join body) w).1
          = Responded (failure 409 "This email is already on the waitlist")))
  ∧ (∀ (requests : list (Script * Request)) (key : option string) (now k : string),
       let w := run requests (fresh_world key now) in
       (admissions k w ≤ S (removals k w))%nat
       ∧ (welcomes k w ≤ admissions k w)%nat).
Proof.
  split.
  - intros s body email old w Hemail Hwf Hold.
    rewrite (serve_join_known _ _ _ _ _ Hemail Hold). split_and!.
    + done.
    + by apply records_for_present.
    + intros Hvalid Hs.
      assert (Hbody : destructurable body = true) by by destruct body.
      by erewrite serve_join_duplicate.
  - intros requests key now k w.
    destruct (run_tally requests (fresh_world key now)
                (fresh_world_tally key now) k) as [Hwel Hadm].
    fold w in Hwel, Hadm. split; [|done].
    rewrite Hadm. destruct (store w !! k); lia.
Qed.

(** ** The HTML of a bulk mail *)

Lemma lines_cons text : ∃ l ls, lines text = l :: ls.
Proof.
  destruct text as [|ch rest]; simpl; [by eauto|].
  destruct (Ascii.eqb ch newline); [by eauto|].
  destruct (lines rest); eauto.
Qed.

Lemma join_with_cons sep l l' ls :
  join_with sep (l :: l' :: ls) = l +:+ sep +:+ join_with sep (l' :: ls).
Proof. done. Qed.

Lemma join_with_extend sep ch l ls :
  join_with sep (String ch l :: ls) = String ch (join_with sep (l :: ls)).
Proof. by destruct ls. Qed.

(** Joining the lines with newlines gives the text back. *)
Lemma join_lines text : join_with newline_string (lines text) = text.
Proof.
  induction text as [|ch rest IH]; [done|]. simpl.
  destruct (Ascii.eqb ch newline) eqn:Hch.
  - apply Ascii.eqb_eq in Hch. subst ch.
    destruct (lines_cons rest) as (l & ls & Hl). rewrite Hl in *.
    rewrite join_with_cons. by rewrite IH.
  - destruct (lines_cons rest) as (l & ls & Hl). rewrite Hl in *.
    rewrite join_with_extend. by rewrite IH.
Qed.

(** [replace(/\n/g, '<br/>')] joins the lines with [<br/>]. *)
Lemma replace_newlines_lines text :
  replace_newlines text = join_with "<br/>" (lines text).
Proof.
  induction text as [|ch rest IH]; [done|]. simpl.
  destruct (lines_cons rest) as (l & ls & Hl). rewrite Hl in *.
  destruct (Ascii.eqb ch newline).
  - rewrite join_with_cons. by rewrite IH.
  - rewrite join_with_extend. by rewrite IH.
Qed.

(** C8: for a bulk-email request whose body is a string, every mail the
    handler sends carries as HTML the lines of the body, each verbatim,
    joined by [<br/>] inside the fixed [div]; a sendable request sends
    one such mail to each recipient. *)
Theorem bulk_html_is_body_with_breaks
    (s : Script) (req_body : jsval) (w : World) (text : string) :
  prop req_body "body" = JStr text →
  join_with newline_string (lines text) = text
  ∧ ∃ sent,
      (serve s (BulkEmail req_body) w).2 = post_all sent w
      ∧ Forall (λ mr : Mail * SendResult,
          mail_content mr.1
            = Html ("<div style='font-family:sans-serif;line-height:1.5;'>"
                      +:+ join_with "<br/>" (lines text) +:+ "</div>")) sent
      ∧ (∀ subject recipients,
           sendable req_body w subject text recipients →
           map mail_to (sent.*1) = recipients).
Proof.
  intros Hbody. split; [apply join_lines|].
  destruct (serve_bulk_world s req_body w)
    as [[Hw Hno]|(subject & text' & recipients & Hs)].
  - exists []. rewrite post_all_nil. split_and!; [done|done|].
    intros subject recipients Hs. by destruct (Hno _ _ _ Hs).
  - pose proof Hs as (_ & _ & _ & Hb & _). rewrite Hbody in Hb.
    injection Hb as <-.
    destruct (serve_bulk_sendable _ _ s _ _ _ Hs) as [Hw' _].
    eexists. split_and!; [exact Hw'| |].
    + apply Forall_forall. intros [m r] Hin.
      apply elem_of_zip_l in Hin. apply list_elem_of_fmap in Hin as (x & -> & _).
      simpl. unfold html_of. by rewrite replace_newlines_lines.
    + intros subject' recipients' Hs'.
      destruct Hs as (_ & _ & _ & _ & _ & He & _).
      destruct Hs' as (_ & _ & _ & _ & _ & He' & _).
      rewrite He in He'. injection He' as <-.
      rewrite fst_zip by (by rewrite length_map, answers_length).
      rewrite <- list_fmap_compose. by apply list_fmap_id.
Qed.

(** ** POST /join: the paths past validation *)

Lemma pop_fault_calm s :
  storage_calm s → (pop_fault s).1 = None ∧ storage_calm (pop_fault s).2.
Proof.
  unfold storage_calm, pop_fault. destruct s as [[|f fs] rs]; simpl; [done|].
  intros Hall. by apply Forall_cons in Hall as [-> Hall].
Qed.

Lemma pop_send_faults s : store_faults (pop_send s).2 = store_faults s.
Proof. unfold pop_send. by destruct s as [fs [|r rs]]. Qed.

Lemma pop_fault_after_send s : (pop_fault (pop_send s).2).1 = (pop_fault s).1.
Proof. unfold pop_fault. rewrite pop_send_faults. by destruct (store_faults s). Qed.

Lemma valid_fields name email r :
  name ≠ "" → email ≠ "" → is_email email = true →
  valid_request (JStr name) (JStr email) (JStr (role_name r)) = true
  ∧ safeParse (JStr name) (JStr email) (JStr (role_name r))
    = inr (join_data name email r).
Proof.
  intros Hn He Hmail.
  unfold valid_request, safeParse, name_schema, email_schema, role_schema. simpl.
  rewrite length_lt_1, !bool_decide_eq_false_2, Hmail by done.
  by destruct r.
Qed.

(** X1: a valid join request for an address with no record, with the key
    configured, the store answering and the welcome mail delivered, is
    answered 200 with the count after the insertion (one more than the
    store held); the record built from the request's fields and the clock
    is filed under the address and one welcome mail went to it. *)
Theorem join_admits
    (s : Script) (body : jsval) (name email : string) (r : Role) (w : World) :
  prop body "name" = JStr name → name ≠ "" →
  prop body "email" = JStr email → email ≠ "" → is_email email = true →
  prop body "role" = JStr (role_name r) →
  store w !! normalize email = None →
  configured w = true →
  storage_calm s →
  (pop_send s).1 = Delivered →
  serve s (Join body) w
    = (Responded (joined (S (size (store w)))),
       joined_world (join_data name email r) Delivered w).
Proof.
  intros Hname Hn Hemail He Hmail Hrole Hfree Hc Hcalm Hsend.
  assert (Hbody : destructurable body = true) by by destruct body.
  destruct (valid_fields name email r Hn He Hmail) as [Hvalid Hparse].
  rewrite <- Hname, <- Hemail, <- Hrole in Hvalid, Hparse.
  unfold serve, route. rewrite (post_join_valid _ _ _ _ Hbody Hvalid Hparse).
  cbv zeta. cbn [join_data data_email].
  destruct (pop_fault_calm s Hcalm) as [Hf1 Hcalm1].
  destruct (pop_fault s) as [f s1] eqn:Hpop. simpl in Hf1, Hcalm1. subst f.
  rewrite Hfree, Hc.
  replace s1 with (pop_fault s).2 by by rewrite Hpop.
  rewrite pop_send_after_fault. cbn [fst snd]. rewrite Hsend.
  match goal with |- context [pop_fault ?x] =>
    assert (Hf2 : (pop_fault x).1 = None);
      [|destruct (pop_fault x) as [f2 s3]; simpl in Hf2; subst f2]
  end.
  { apply pop_fault_calm. unfold storage_calm. simpl. by rewrite Hpop. }
  simpl. unfold joined_world, joined. simpl.
  by rewrite map_size_insert_None.
Qed.

(** X2: when the insertion throws, the join is answered with the generic
    500 and nothing else happens: no mail is sent and the world is as it
    was. *)
Theorem join_store_fault
    (s : Script) (body : jsval) (e : exn) (w : World) :
  destructurable body = true →
  valid_request (prop body "name") (prop body "email") (prop body "role") = true →
  (pop_fault s).1 = Some e →
  serve s (Join body) w = (Responded unexpected, w).
Proof.
  intros Hbody Hvalid Hfault.
  destruct (safeParse_valid _ _ _ Hvalid) as (n & a & r & _ & _ & _ & _ & _ & Hparse).
  unfold serve, route. rewrite (post_join_valid _ _ _ _ Hbody Hvalid Hparse).
  cbv zeta. destruct (pop_fault s) as [f s1]. simpl in Hfault. by subst f.
Qed.

(** X3: when the count query of line 101 throws after the welcome mail was
    delivered, the join is answered with the generic 500 although the
    record is filed and the mail is sent. *)
Theorem join_count_fault
    (s : Script) (body : jsval) (name email : string) (r : Role)
    (e : exn) (rest : list (option exn)) (w : World) :
  prop body "name" = JStr name → name ≠ "" →
  prop body "email" = JStr email → email ≠ "" → is_email email = true →
  prop body "role" = JStr (role_name r) →
  store w !! normalize email = None →
  configured w = true →
  store_faults s = None :: Some e :: rest →
  (pop_send s).1 = Delivered →
  serve s (Join body) w
    = (Responded unexpected, joined_world (join_data name email r) Delivered w).
Proof.
  intros Hname Hn Hemail He Hmail Hrole Hfree Hc Hfaults Hsend.
  assert (Hbody : destructurable body = true) by by destruct body.
  destruct (valid_fields name email r Hn He Hmail) as [Hvalid Hparse].
  rewrite <- Hname, <- Hemail, <- Hrole in Hvalid, Hparse.
  unfold serve, route. rewrite (post_join_valid _ _ _ _ Hbody Hvalid Hparse).
  cbv zeta. cbn [join_data data_email].
  assert (Hpop : pop_fault s
                 = (None, {| store_faults := Some e :: rest;
                             send_results := send_results s |}))
    by (unfold pop_fault; by rewrite Hfaults).
  rewrite Hpop, Hfree, Hc.
  set (s1 := {| store_faults := Some e :: rest; send_results := send_results s |}).
  assert (Hsend1 : (pop_send s1).1 = Delivered).
  { unfold pop_send in *. simpl. by destruct (send_results s). }
  rewrite Hsend1.
  assert (Hf2 : pop_fault (pop_send s1).2
                = (Some e, {| store_faults := rest;
                              send_results := send_results (pop_send s1).2 |})).
  { unfold pop_fault. by rewrite pop_send_faults. }
  by rewrite Hf2.
Qed.

(** X4: a join request sends at most one mail, the welcome mail to the
    address of the request, and only after it has filed the record of
    that address where there was none. *)
Theorem join_mail_follows_insert (s : Script) (body : jsval) (w : World) :
  outbox (serve s (Join body) w).2 = outbox w
  ∨ ∃ d answer,
      prop body "name" = JStr (data_name d)
      ∧ prop body "email" = JStr (data_email d)
      ∧ store w !! normalize (data_email d) = None
      ∧ (serve s (Join body) w).2 = joined_world d answer w.
Proof.
  destruct (destructurable body) eqn:Hbody;
    [|left; unfold serve, route, post_join, try_catch; by rewrite Hbody].
  destruct (valid_request (prop body "name") (prop body "email") (prop body "role"))
    eqn:Hvalid; [|left; by rewrite serve_join_invalid].
  destruct (safeParse_valid _ _ _ Hvalid)
    as (n & a & r & Hn & Ha & _ & _ & _ & Hparse).
  unfold serve, route. rewrite (post_join_valid _ _ _ _ Hbody Hvalid Hparse).
  cbv zeta. cbn [data_email].
  destruct (pop_fault s) as [[e1|] s1]; [by left|].
  destruct (store w !! normalize a) eqn:Hfree; [by left|].
  destruct (configured w); [|by left].
  right. exists {| data_name := n; data_email := a; data_role := r |}, (pop_send s1).1.
  split_and!; try done.
  destruct (pop_send s1).1; try done.
  by destruct (pop_fault _) as [[e2|] s3].
Qed.

(** ** The answers of the routes *)

(** The answer to an invalid join request: the guard's message when a
    field is falsy, the first issue of the schema otherwise. *)
Lemma serve_join_invalid_answer s body w :
  destructurable body = true →
  valid_request (prop body "name") (prop body "email") (prop body "role") = false →
  ∃ msg,
    (serve s (Join body) w).1 = Responded (failure 400 msg)
    ∧ (if negb (truthy (prop body "name")) || negb (truthy (prop body "email"))
          || negb (truthy (prop body "role"))
       then msg = "All fields are required"
       else ∃ rest,
           safeParse (prop body "name") (prop body "email") (prop body "role")
           = inl (msg :: rest)).
Proof.
  intros Hbody Hbad.
  destruct (validation_rejects _ _ _ Hbad) as (msg & _ & Hcode).
  exists msg. split; [|done].
  unfold serve, route. rewrite post_join_fields by done.
  unfold try_catch. simpl.
  destruct (negb (truthy (prop body "name")) || negb (truthy (prop body "email"))
            || negb (truthy (prop body "role"))).
  - by subst msg.
  - by destruct Hcode as [rest ->].
Qed.

Lemma serve_join_answer s body w :
  ∃ resp, (serve s (Join body) w).1 = Responded resp ∧ answer (Join body) resp.
Proof.
  destruct (destructurable body) eqn:Hbody.
  2: { exists unexpected. split; [|fail_answer].
       unfold serve, route, post_join, try_catch. by rewrite Hbody. }
  destruct (valid_request (prop body "name") (prop body "email") (prop body "role"))
    eqn:Hvalid.
  2: { destruct (serve_join_invalid_answer s body w Hbody Hvalid) as (msg & -> & _).
       eexists. split; [done|]. fail_answer. }
  destruct (safeParse_valid _ _ _ Hvalid)
    as (n & a & r & _ & _ & _ & _ & _ & Hparse).
  unfold serve, route. rewrite (post_join_valid _ _ _ _ Hbody Hvalid Hparse).
  cbv zeta.
  destruct (pop_fault s) as [[e1|] s1];
    [eexists; split; [done|fail_answer]|].
  destruct (store w !! _);
    [eexists; split; [done|fail_answer]|].
  destruct (configured w);
    [|eexists; split; [done|fail_answer]].
  destruct (pop_send s1).1;
    try (eexists; split; [done|fail_answer]).
  destruct (pop_fault _) as [[e2|] s3]; eexists; (split; [done|]).
  - fail_answer.
  - constructor.
Qed.

Lemma serve_delete_answer s email w :
  ∃ resp, (serve s (DeleteSubscriber email) w).1 = Responded resp
          ∧ answer (DeleteSubscriber email) resp.
Proof.
  unfold serve, route, delete_subscriber, deleteSubscriber, try_catch, bind,
    storage_call.
  case_bool_decide; [eexists; split; [done|fail_answer]|].
  simpl. destruct (pop_fault s) as [[e|] s'];
    [eexists; split; [done|fail_answer]|].
  destruct (store w !! normalize email); simpl; eexists; (split; [done|]).
  - constructor.
  - fail_answer.
Qed.

Lemma serve_bulk_answer s req_body w :
  destructurable req_body = true →
  ∃ resp, (serve s (BulkEmail req_body) w).1 = Responded resp
          ∧ answer (BulkEmail req_body) resp.
Proof.
  intros Hd.
  unfold serve, route, post_bulk_email. rewrite Hd.
  unfold bind at 1, get_world. simpl.
  destruct (configured w); simpl;
    [|eexists; split; [done|fail_answer]].
  match goal with |- context [if ?b then _ else _] => destruct b end;
    [eexists; split; [done|fail_answer]|].
  unfold try_catch, bind.
  destruct (prop req_body "emails") as [| | | | |recipients|];
    try (eexists; split; [done|fail_answer]).
  destruct (promise_all_map _ recipients _) as [[e|results] c];
    [eexists; split; [done|fail_answer]|].
  destruct (0 <? _)%nat; [destruct (array_join _ _)|];
    eexists; (split; [done|]).
  - fail_answer.
  - fail_answer.
  - constructor.
Qed.

(** Every request is answered in one of the shapes of its route, except a
    bulk-email request whose body cannot be read. *)
Lemma serve_answer s r w :
  match (serve s r w).1 with
  | Responded resp => answer r resp
  | Unhandled _ => ∃ req_body, r = BulkEmail req_body ∧ destructurable req_body = false
  end.
Proof.
  destruct r as [body| | |email|req_body].
  - by destruct (serve_join_answer s body w) as (resp & -> & Hans).
  - unfold serve, route, get_count, getSubscriberCount, try_catch, bind,
      storage_call. simpl.
    destruct (pop_fault s) as [[e|] s']; simpl; constructor.
  - unfold serve, route, get_subscribers, getAllSubscribers, try_catch, bind,
      storage_call. simpl.
    destruct (pop_fault s) as [[e|] s']; simpl; constructor.
  - by destruct (serve_delete_answer s email w) as (resp & -> & Hans).
  - destruct (destructurable req_body) eqn:Hd.
    + by destruct (serve_bulk_answer s req_body w Hd) as (resp & -> & Hans).
    + unfold serve, route. rewrite post_bulk_email_undestructurable by done.
      simpl. eauto.
Qed.

(** X5: each route answers only with the status codes of its own table:
    join 200, 400, 409 or 500; count 200; subscribers 200 or 500; delete
    200, 400, 404 or 500; bulk-email 200, 400 or 500.  The one request
    that gets no answer from its handler is a bulk-email request whose
    body cannot be read. *)
Theorem route_statuses (s : Script) (r : Request) (w : World) :
  match (serve s r w).1 with
  | Responded resp => status resp ∈ statuses r
  | Unhandled _ => ∃ req_body, r = BulkEmail req_body ∧ destructurable req_body = false
  end.
Proof.
  pose proof (serve_answer s r w) as Hans.
  destruct (serve s r w).1 as [resp|e]; [|done].
  destruct Hans; simpl; try done; in_list.
Qed.

(** X6: the [success] field agrees with the status on every route: an
    answer with status 200 never carries [success: false], and every
    other answer carries it. *)
Theorem success_flag_matches_status (s : Script) (r : Request) (w : World) :
  match (serve s r w).1 with
  | Responded resp => status resp = 200 ↔ success_flag resp ≠ JBool false
  | Unhandled _ => True
  end.
Proof.
  pose proof (serve_answer s r w) as Hans.
  destruct (serve s r w).1 as [resp|e]; [|done].
  destruct Hans; unfold success_flag; simpl; split; try done.
Qed.

(** ** The schema and the messages of a rejected join *)

(** X7: the schema accepts exactly a non-empty string name, a string email
    of valid syntax and the role [customer] or [provider], and the parsed
    data are the three fields as they came. *)
Theorem schema_accepts_exactly (name email role : jsval) (d : JoinData) :
  safeParse name email role = inr d
  ↔ name = JStr (data_name d) ∧ data_name d ≠ ""
    ∧ email = JStr (data_email d) ∧ is_email (data_email d) = true
    ∧ role = JStr (role_name (data_role d)).
Proof.
  unfold safeParse, name_schema, email_schema, role_schema. split.
  - destruct name as [| | | |n| |]; try done.
    destruct (String.length n <? 1)%nat eqn:Hlen; [done|].
    rewrite length_lt_1 in Hlen. apply bool_decide_eq_false in Hlen.
    destruct email as [| | | |e| |]; try done.
    destruct (is_email e) eqn:Hmail; [|done].
    destruct role as [| | | |r| |]; try done.
    repeat case_bool_decide; try done; intros [= <-]; by subst.
  - intros (-> & Hn & -> & Hmail & ->).
    rewrite length_lt_1, bool_decide_eq_false_2, Hmail by done.
    by destruct d as [n e []].
Qed.

(** X8: a failed parse carries at least one issue, so line 42 always finds
    [errors[0]]. *)
Theorem schema_failure_has_issue (name email role : jsval) :
  safeParse name email role ≠ inl [].
Proof.
  unfold safeParse, name_schema, email_schema, role_schema.
  destruct name as [| |[]|zn|sn|?|?]; simpl; try done;
    destruct (String.length sn <? 1)%nat; try done;
    destruct email as [| |[]|ze|se|?|?]; simpl; try done;
    destruct (is_email se); try done;
    destruct role as [| |[]|zr|sr|?|?]; simpl; try done;
    repeat case_bool_decide; done.
Qed.

(** X9: the presence check of line 30 comes first: a request in which a
    field is missing, empty, [0], [false] or [null] is answered
    "All fields are required", whatever the other fields hold. *)
Theorem join_guard_first (s : Script) (body : jsval) (w : World) :
  destructurable body = true →
  truthy (prop body "name") && truthy (prop body "email")
    && truthy (prop body "role") = false →
  serve s (Join body) w = (Responded (failure 400 "All fields are required"), w).
Proof.
  intros Hbody Hfalsy.
  unfold serve, route. rewrite post_join_fields by done.
  unfold try_catch. cbv zeta.
  destruct (truthy (prop body "name")), (truthy (prop body "email")),
    (truthy (prop body "role")); done.
Qed.


(** X11: with a name and an email that pass, a role that is a string
    other than [customer] and [provider] is answered 400 with a message
    that quotes the received role as it came. *)
Theorem join_role_quoted
    (s : Script) (body : jsval) (name email role : string) (w : World) :
  prop body "name" = JStr name → name ≠ "" →
  prop body "email" = JStr email → email ≠ "" → is_email email = true →
  prop body "role" = JStr role →
  role ≠ "" → role ≠ "customer" → role ≠ "provider" →
  serve s (Join body) w
    = (Responded
         (failure 400
            ("Invalid enum value. Expected 'customer' | 'provider', received '"
               +:+ role +:+ "'")), w).
Proof.
  intros Hname Hn Hemail He Hmail Hrole Hr Hc Hp.
  assert (Hbody : destructurable body = true) by by destruct body.
  unfold serve, route. rewrite post_join_fields by done.
  unfold try_catch. cbv zeta. rewrite Hname, Hemail, Hrole. simpl.
  rewrite !bool_decide_eq_false_2 by done. simpl.
  unfold safeParse, name_schema, email_schema, role_schema. rewrite length_lt_1.
  by rewrite !bool_decide_eq_false_2, Hmail by done.
Qed.

Lemma issue_head_not_required name email role msg rest :
  truthy name = true → truthy email = true → truthy role = true →
  safeParse name email role = inl (msg :: rest) →
  msg ≠ "Name is required" ∧ msg ≠ "Role is required".
Proof.
  unfold safeParse, name_schema, email_schema, role_schema.
  intros Hn He Hr.
  destruct name as [| |[]|zn|sn|?|?]; simpl in *; try done;
    try (intros [= <- _]; by split);
    rewrite length_lt_1;
    destruct (bool_decide (sn = "")); simpl in *; try done;
    destruct email as [| |[]|ze|se|?|?]; simpl in *; try done;
    try (intros [= <- _]; by split);
    destruct (is_email se); simpl;
    try (intros [= <- _]; by split);
    destruct role as [| |[]|zr|sr|?|?]; simpl in *; try done;
    try (intros [= <- _]; by split);
    repeat case_bool_decide; try done; intros [= <- _]; by split.
Qed.

(** X12: the schema's messages "Name is required" and "Role is required"
    never reach a caller: every join request is answered, and with
    neither of them. *)
Theorem join_never_says_required (s : Script) (body : jsval) (w : World) :
  match (serve s (Join body) w).1 with
  | Responded resp =>
      message_of resp ≠ JStr "Name is required"
      ∧ message_of resp ≠ JStr "Role is required"
  | Unhandled _ => False
  end.
Proof.
  destruct (destructurable body) eqn:Hbody.
  2: { unfold serve, route, post_join, try_catch. by rewrite Hbody. }
  destruct (valid_request (prop body "name") (prop body "email") (prop body "role"))
    eqn:Hvalid.
  2: { destruct (serve_join_invalid_answer s body w Hbody Hvalid) as (msg & -> & Hmsg).
       unfold message_of. simpl.
       destruct (truthy (prop body "name")) eqn:Hn;
         [|simpl in Hmsg; by subst msg].
       destruct (truthy (prop body "email")) eqn:He;
         [|simpl in Hmsg; by subst msg].
       destruct (truthy (prop body "role")) eqn:Hr;
         [|simpl in Hmsg; by subst msg].
       simpl in Hmsg. destruct Hmsg as [rest Hparse].
       destruct (issue_head_not_required _ _ _ _ _ Hn He Hr Hparse).
       split; congruence. }
  destruct (safeParse_valid _ _ _ Hvalid)
    as (n & a & r & _ & _ & _ & _ & _ & Hparse).
  unfold serve, route. rewrite (post_join_valid _ _ _ _ Hbody Hvalid Hparse).
  cbv zeta. unfold message_of.
  destruct (pop_fault s) as [[e1|] s1]; [done|].
  destruct (store w !! _); [done|].
  destruct (configured w); [|done].
  destruct (pop_send s1).1; try done.
  by destruct (pop_fault _) as [[e2|] s3].
Qed.

(** ** POST /bulk-email: the other paths *)

Lemma zip_all_delivered {A} (l : list A) rs :
  length rs = length l → Forall (λ a, a = Delivered) rs →
  zip l rs = map (λ x, (x, Delivered)) l.
Proof.
  revert rs. induction l as [|x l IH]; intros [|r rs] Hlen Hall; simpl in *; try done.
  apply Forall_cons in Hall as [-> Hall]. f_equal. apply IH; [lia|done].
Qed.

Lemma failed_none recipients rs :
  Forall (λ a, a = Delivered) rs → failed_recipients recipients rs = [].
Proof.
  unfold failed_recipients. revert rs.
  induction recipients as [|x xs IH]; intros [|r rs] Hall; simpl; try done.
  apply Forall_cons in Hall as [-> Hall].
  rewrite filter_cons_False by done. by apply IH.
Qed.

(** X13: when every send of a sendable request is delivered, the answer
    is the success "Sent to N subscriber(s)." with N the length of the
    recipient list, and the outbox gains one delivered mail per entry of
    the list, in order. *)
Theorem bulk_all_delivered
    (s : Script) (req_body : jsval) (w : World)
    (subject : jsval) (text : string) (recipients : list jsval) :
  sendable req_body w subject text recipients →
  Forall (λ a, a = Delivered) (answers s (length recipients)) →
  serve s (BulkEmail req_body) w =
    (Responded (success ("Sent to " +:+ pretty (length recipients)
                           +:+ " subscriber(s).")),
     post_all (map (λ email, (bulk_mail subject text email, Delivered)) recipients) w).
Proof.
  intros Hs Hall.
  destruct (serve_bulk_sendable _ _ s _ _ _ Hs) as [Hw Hv].
  assert (Hcalm : Forall (λ a, crashed a = false) (answers s (length recipients))).
  { eapply Forall_impl; [exact Hall|]. by intros a ->. }
  specialize (Hv Hcalm). rewrite (failed_none _ _ Hall) in Hv.
  rewrite zip_all_delivered in Hw;
    [|by rewrite length_map, answers_length|done].
  rewrite <- list_fmap_compose in Hw.
  destruct (serve s (BulkEmail req_body) w) as [o w']. simpl in *. by subst.
Qed.

(** X14: with the key configured, a bulk-email request without a subject,
    a body or recipients, or with an empty list of recipients, is
    answered 400 and sends nothing. *)
Theorem bulk_missing_fields (s : Script) (req_body : jsval) (w : World) :
  destructurable req_body = true →
  configured w = true →
  negb (truthy (prop req_body "subject")) || negb (truthy (prop req_body "body"))
    || negb (truthy (prop req_body "emails"))
    || length_is_zero (prop req_body "emails") = true →
  serve s (BulkEmail req_body) w
    = (Responded
         (failure 400 "Subject, body, and at least one recipient are required."),
       w).
Proof.
  intros Hd Hc Hcheck. unfold serve, route, post_bulk_email. rewrite Hd.
  unfold bind at 1, get_world. simpl. rewrite Hc. simpl. by rewrite Hcheck.
Qed.

(** X15: when a send of a sendable request throws, the answer is the
    generic 500 of the [catch] block, which names no recipient, and every
    recipient has had its send all the same. *)
Theorem bulk_send_throws
    (s : Script) (req_body : jsval) (w : World)
    (subject : jsval) (text : string) (recipients : list jsval) :
  sendable req_body w subject text recipients →
  Exists (λ a, crashed a = true) (answers s (length recipients)) →
  serve s (BulkEmail req_body) w =
    (Responded sending_failed,
     post_all (zip (map (bulk_mail subject text) recipients)
                   (answers s (length recipients))) w).
Proof.
  intros Hs Hex.
  pose proof (bulk_crash_generic s _ _ _ _ _ Hs Hex) as Hanswer.
  destruct (serve_bulk_sendable _ _ s _ _ _ Hs) as [Hw _].
  destruct (serve s (BulkEmail req_body) w) as [o w']. simpl in *. by subst.
Qed.

Lemma promise_all_map_rejects subject body recipients c :
  is_string body = false → recipients ≠ [] →
  ∃ e, (promise_all_map (send_one subject body) recipients c).1 = inl e.
Proof.
  intros Hb Hne. destruct recipients as [|email rest]; [done|].
  simpl. unfold send_one at 1, bind, render_html.
  destruct body; try done; simpl;
    destruct (promise_all_map _ rest c) as [v c2]; simpl; eauto.
Qed.

(** X16: a bulk-email request that passes the checks of line 190 but
    whose recipients are not an array, or whose body is not a string, is
    answered with the generic 500, not 400, and sends nothing. *)
Theorem bulk_wrong_types (s : Script) (req_body : jsval) (w : World) :
  destructurable req_body = true →
  configured w = true →
  truthy (prop req_body "subject") = true →
  truthy (prop req_body "body") = true →
  truthy (prop req_body "emails") = true →
  length_is_zero (prop req_body "emails") = false →
  is_array (prop req_body "emails") = false
  ∨ is_string (prop req_body "body") = false →
  serve s (BulkEmail req_body) w = (Responded sending_failed, w).
Proof.
  intros Hd Hc Hsubj Hbody Hemails Hzero Htypes.
  unfold serve, route, post_bulk_email. rewrite Hd.
  unfold bind at 1, get_world. simpl. rewrite Hc, Hsubj, Hbody, Hemails, Hzero.
  simpl. unfold try_catch, bind.
  destruct (prop req_body "emails") as [| | | | |recipients|] eqn:He; try done.
  destruct Htypes as [|Hb]; [done|].
  assert (Hne : recipients ≠ []) by by destruct recipients.
  destruct (promise_all_map_rejects (prop req_body "subject") _ _ (w, s) Hb Hne)
    as [e Hrun].
  pose proof (promise_all_map_no_sends (prop req_body "subject") _ recipients
                (w, s) Hb) as Hno.
  destruct (promise_all_map _ recipients (w, s)) as [v c']. simpl in *.
  by subst.
Qed.

(** X17: a bulk-email request writes nothing to the store, and every mail
    it sends comes from the fixed sender, carries the subject of the
    request and goes to an entry of the request's list of recipients. *)
Theorem bulk_mails_to_recipients (s : Script) (req_body : jsval) (w : World) :
  ∃ sent,
    (serve s (BulkEmail req_body) w).2 = post_all sent w
    ∧ store (serve s (BulkEmail req_body) w).2 = store w
    ∧ journal (serve s (BulkEmail req_body) w).2 = journal w
    ∧ Forall (λ mr : Mail * SendResult,
        mail_from mr.1 = sender
        ∧ mail_subject mr.1 = prop req_body "subject"
        ∧ ∃ recipients,
            prop req_body "emails" = JArr recipients ∧ mail_to mr.1 ∈ recipients)
        sent.
Proof.
  destruct (serve_bulk_world s req_body w)
    as [[Hw _]|(subject & text & recipients & Hs)].
  - exists []. rewrite post_all_nil, Hw. by split_and!.
  - destruct (serve_bulk_sendable _ _ s _ _ _ Hs) as [Hw _].
    eexists. split; [exact Hw|]. rewrite Hw. split_and!; [done|done|].
    destruct Hs as (_ & Hsubj & _ & _ & _ & Hemails & _).
    apply Forall_forall. intros [m a] Hin.
    apply elem_of_zip_l in Hin. apply list_elem_of_fmap in Hin as (x & -> & Hx).
    simpl. split_and!; [done|done|]. by exists recipients.
Qed.

(** ** What the routes leave alone *)

Lemma serve_join_world s body w :
  (serve s (Join body) w).2 = w
  ∨ ∃ d,
      prop body "email" = JStr (data_email d)
      ∧ store w !! normalize (data_email d) = None
      ∧ ((serve s (Join body) w).2
           = put_record (normalize (data_email d)) (subscriber_of d w) w
         ∨ ∃ answer, (serve s (Join body) w).2 = joined_world d answer w).
Proof.
  destruct (destructurable body) eqn:Hbody;
    [|left; unfold serve, route, post_join, try_catch; by rewrite Hbody].
  destruct (valid_request (prop body "name") (prop body "email") (prop body "role"))
    eqn:Hvalid; [|left; by rewrite serve_join_invalid].
  destruct (safeParse_valid _ _ _ Hvalid)
    as (n & a & r & _ & Ha & _ & _ & _ & Hparse).
  unfold serve, route. rewrite (post_join_valid _ _ _ _ Hbody Hvalid Hparse).
  cbv zeta. cbn [data_email].
  destruct (pop_fault s) as [[e1|] s1]; [by left|].
  destruct (store w !! normalize a) eqn:Hfree; [by left|].
  right. exists {| data_name := n; data_email := a; data_role := r |}.
  split_and!; try done.
  destruct (configured w); [|by left].
  right. exists (pop_send s1).1.
  destruct (pop_send s1).1; try done.
  by destruct (pop_fault _) as [[e2|] s3].
Qed.

Lemma serve_delete_world s email w :
  (serve s (DeleteSubscriber email) w).2 = w
  ∨ (is_Some (store w !! normalize email)
     ∧ (serve s (DeleteSubscriber email) w).2 = drop_record (normalize email) w).
Proof.
  unfold serve, route, delete_subscriber, deleteSubscriber, try_catch, bind,
    storage_call.
  case_bool_decide; [by left|]. simpl.
  destruct (pop_fault s) as [[e|] s']; [by left|].
  destruct (store w !! normalize email) eqn:Hk; simpl; [|by left].
  right. split; [by eexists|done].
Qed.

Lemma serve_read_world s r w :
  match r with Count | Subscribers => True | _ => False end →
  (serve s r w).2 = w.
Proof.
  destruct r; try done; intros _.
  - unfold serve, route, get_count, getSubscriberCount, try_catch, bind,
      storage_call. simpl. by destruct (pop_fault s) as [[e|] s'].
  - unfold serve, route, get_subscribers, getAllSubscribers, try_catch, bind,
      storage_call. simpl. by destruct (pop_fault s) as [[e|] s'].
Qed.

(** X18: a request changes at most the record of its own address: a join
    only files a record under the key of its email where there was none,
    a delete only removes the record under the key of its email, and
    count, subscribers and bulk-email change no record. *)
Theorem request_touches_own_record
    (s : Script) (r : Request) (w : World) (k : string) :
  store (serve s r w).2 !! k = store w !! k
  ∨ match r with
    | Join body =>
        ∃ email, prop body "email" = JStr email ∧ k = normalize email
                 ∧ store w !! k = None ∧ is_Some (store (serve s r w).2 !! k)
    | DeleteSubscriber email =>
        k = normalize email ∧ is_Some (store w !! k)
        ∧ store (serve s r w).2 !! k = None
    | _ => False
    end.
Proof.
  destruct r as [body| | |email|req_body].
  - destruct (serve_join_world s body w) as [->|(d & Hemail & Hfree & Hw)];
      [by left|].
    assert (Hstore : store (serve s (Join body) w).2
                     = <[normalize (data_email d) := subscriber_of d w]> (store w)).
    { by destruct Hw as [->|[answer ->]]. }
    rewrite Hstore, lookup_insert. case_decide; [|by left].
    right. exists (data_email d). subst k. by split_and!.
  - left. by rewrite serve_read_world.
  - left. by rewrite serve_read_world.
  - destruct (serve_delete_world s email w) as [->|[Hsome ->]]; [by left|].
    simpl. rewrite lookup_delete. case_decide; [|by left].
    right. by subst k.
  - left. destruct (serve_bulk_world s req_body w)
      as [[-> _]|(subject & text & recipients & Hs)]; [done|].
    by destruct (serve_bulk_sendable _ _ s _ _ _ Hs) as [-> _].
Qed.

(** X19: the subscribers route answers 200 with one entry per record of
    the store, or, when the store throws, 500 with [success: false] and
    an empty [subscribers] array; it changes nothing. *)
Theorem subscribers_answer (s : Script) (w : World) :
  serve s Subscribers w =
    (Responded (match (pop_fault s).1 with
                | Some _ => listing_failed
                | None => listing (all_records w)
                end), w)
  ∧ length (all_records w) = size (store w).
Proof.
  split.
  - unfold serve, route, get_subscribers, getAllSubscribers, try_catch, bind,
      storage_call. simpl. by destruct (pop_fault s) as [[e|] s'].
  - unfold all_records. by rewrite length_fmap, length_map_to_list.
Qed.

(** X20: when the store throws during a delete, the answer is the 500 of
    the delete route and nothing changes. *)
Theorem delete_store_fault (s : Script) (email : string) (e : exn) (w : World) :
  email ≠ "" →
  (pop_fault s).1 = Some e →
  serve s (DeleteSubscriber email) w
    = (Responded
         (failure 500 "An unexpected error occurred while deleting subscriber."),
       w).
Proof.
  intros He Hfault.
  unfold serve, route, delete_subscriber, deleteSubscriber, try_catch, bind,
    storage_call.
  rewrite bool_decide_eq_false_2 by done. simpl.
  destruct (pop_fault s) as [f s']. simpl in Hfault. by subst f.
Qed.

(** ** The line breaks of the HTML *)

Lemma replace_newlines_fixed text :
  has_newline text = false → replace_newlines text = text.
Proof.
  induction text as [|ch rest IH]; [done|]. simpl.
  destruct (Ascii.eqb ch newline); [done|]. simpl. intros H. by rewrite IH.
Qed.

Lemma replace_newlines_clean text : has_newline (replace_newlines text) = false.
Proof.
  induction text as [|ch rest IH]; [done|]. simpl.
  destruct (Ascii.eqb ch newline) eqn:Hch; simpl; [done|]. by rewrite Hch.
Qed.

(** X21: the HTML made of a body has no newline left in it, so making it
    again changes nothing; a text without newlines is left as it is; and
    the HTML of two texts put together is the two HTMLs put together. *)
Theorem replace_newlines_properties (text1 text2 : string) :
  has_newline (replace_newlines text1) = false
  ∧ replace_newlines (replace_newlines text1) = replace_newlines text1
  ∧ (has_newline text1 = false → replace_newlines text1 = text1)
  ∧ replace_newlines (text1 +:+ text2)
    = replace_newlines text1 +:+ replace_newlines text2.
Proof.
  split_and!.
  - apply replace_newlines_clean.
  - apply replace_newlines_fixed, replace_newlines_clean.
  - apply replace_newlines_fixed.
  - induction text1 as [|ch rest IH]; [done|]. simpl.
    destruct (Ascii.eqb ch newline); simpl; by rewrite IH.
Qed.

(** ** From a join to the listing *)


End routes.

(** * Concrete runs *)

Lemma ann_joined_reached :
  run has_at id decimal [(quiet, Join (join_body "Ann" "ann@example.com" "customer"))]
    configured_world = ann_joined.
Proof. reflexivity. Qed.

Lemma ann_joined_wf : store_wf id ann_joined.
Proof. rewrite <- ann_joined_reached. apply run_store_wf, fresh_world_wf. Qed.

(** A second join of Ann's address, under another name and role. *)
Lemma join_duplicate_conflict_witness :
  serve has_at id decimal quiet (Join (join_body "Anna" "ann@example.com" "provider")) ann_joined
    = (Responded (failure 409 "This email is already on the waitlist"), ann_joined)
  ∧ records_for id "ann@example.com" ann_joined = [ann].
Proof.
  destruct (proj1 (join_duplicate_conflict has_at id decimal) quiet
              (join_body "Anna" "ann@example.com" "provider") "ann@example.com" ann
              ann_joined eq_refl ann_joined_wf eq_refl)
    as (Hworld & Hrecords & Hanswer).
  rewrite Hworld in Hrecords. split; [|exact Hrecords].
  rewrite <- Hworld at 2. rewrite <- (Hanswer eq_refl eq_refl).
  by destruct (serve has_at id decimal quiet _ ann_joined).
Defined.

(** Join, delete, join again: the address is admitted twice and gets two
    welcome mails. *)
Lemma readmission_after_delete :
  let requests :=
    [(quiet, Join (join_body "Ann" "ann@example.com" "customer"));
     (quiet, DeleteSubscriber "ann@example.com");
     (quiet, Join (join_body "Ann" "ann@example.com" "customer"))] in
  let w := run has_at id decimal requests configured_world in
  admissions "ann@example.com" w = 2
  ∧ welcomes id "ann@example.com" w = 2
  ∧ removals "ann@example.com" w = 1
  ∧ map (λ mr, (mail_to mr.1, mr.2)) (outbox w)
    = [(JStr "ann@example.com", Delivered); (JStr "ann@example.com", Delivered)].
Proof. vm_compute. repeat split. Qed.

Lemma join_invalid_rejected_witness :
  ∃ msg,
    first_violation
      (constraints has_at
         (prop (join_body "Ann" "ann.example.com" "admin") "name")
         (prop (join_body "Ann" "ann.example.com" "admin") "email")
         (prop (join_body "Ann" "ann.example.com" "admin") "role"))
      = Some msg
    ∧ serve has_at id decimal quiet (Join (join_body "Ann" "ann.example.com" "admin")) ann_joined
      = (Responded (failure 400 msg), ann_joined).
Proof.
  apply (join_invalid_rejected has_at id decimal quiet
           (join_body "Ann" "ann.example.com" "admin") ann_joined);
    reflexivity.
Defined.

Lemma join_mail_failure_keeps_record_witness :
  ∃ msg sub w',
    dispatch_failure configured_world refusing = Some msg
    ∧ serve has_at id decimal refusing (Join (join_body "Ann" "ann@example.com" "customer"))
        configured_world = (Responded (failure 500 msg), w')
    ∧ sub_email sub = "ann@example.com"
    ∧ store w' = <[id "ann@example.com" := sub]> (store configured_world)
    ∧ journal w' = (journal configured_world ++ [Inserted (id "ann@example.com")])%list.
Proof.
  apply (join_mail_failure_keeps_record has_at id decimal refusing
           (join_body "Ann" "ann@example.com" "customer") "ann@example.com"
           configured_world).
  - reflexivity.
  - reflexivity.
  - reflexivity.
  - reflexivity.
  - reflexivity.
  - right. discriminate.
Defined.

Lemma bulk_failure_names_failed_witness :
  serve has_at id decimal b_refused
    (BulkEmail (bulk_body "News" "Hello" ["a@x.io"; "b@x.io"; "c@x.io"]))
    configured_world
  = (Responded (failure 500 "Failed to send to: b@x.io"),
     post_all
       [(bulk_mail (JStr "News") "Hello" (JStr "a@x.io"), Delivered);
        (bulk_mail (JStr "News") "Hello" (JStr "b@x.io"),
         Refused "validation_error" "bad address");
        (bulk_mail (JStr "News") "Hello" (JStr "c@x.io"), Delivered)]
       configured_world)
  ∧ failed_recipients [JStr "a@x.io"; JStr "b@x.io"; JStr "c@x.io"]
      (answers b_refused 3) = [JStr "b@x.io"]
  ∧ failed_addresses ["a@x.io"; "b@x.io"; "c@x.io"]
      (answers b_refused 3) = ["b@x.io"].
Proof.
  destruct (bulk_failure_names_failed has_at id decimal b_refused
              (bulk_body "News" "Hello" ["a@x.io"; "b@x.io"; "c@x.io"])
              configured_world (JStr "News") "Hello"
              [JStr "a@x.io"; JStr "b@x.io"; JStr "c@x.io"])
    as [Hanswer _].
  - repeat split; discriminate.
  - right. left. discriminate.
  - split; [exact Hanswer|split; reflexivity].
Defined.

(** Three addresses, the second refused and the third throwing: the
    answer names nobody, not even the refused address. *)
Lemma bulk_throw_names_nobody :
  serve has_at id decimal refused_then_throws
    (BulkEmail (bulk_body "News" "Hello" ["a@x.io"; "b@x.io"; "c@x.io"]))
    configured_world
  = (Responded (failure 500 "An error occurred while sending emails."),
     post_all
       [(bulk_mail (JStr "News") "Hello" (JStr "a@x.io"), Delivered);
        (bulk_mail (JStr "News") "Hello" (JStr "b@x.io"),
         Refused "validation_error" "bad address");
        (bulk_mail (JStr "News") "Hello" (JStr "c@x.io"),
         Crashed (JsError "socket hang up"))]
       configured_world)
  ∧ failed_recipients [JStr "a@x.io"; JStr "b@x.io"; JStr "c@x.io"]
      (answers refused_then_throws 3) = [JStr "b@x.io"].
Proof. split; reflexivity. Qed.

(** A refused recipient that is an object with an own [toString]: the
    [join] of the failures throws, and the answer is the generic one. *)
Lemma bulk_unprintable_recipient :
  serve has_at id decimal refusing
    (BulkEmail (JObj [("subject", JStr "News"); ("body", JStr "Hello");
                      ("emails", JArr [JObj [("toString", JNull)]])]))
    configured_world
  = (Responded (failure 500 "An error occurred while sending emails."),
     post_all
       [(bulk_mail (JStr "News") "Hello" (JObj [("toString", JNull)]),
         Refused "validation_error" "Invalid `to` field")]
       configured_world).
Proof. reflexivity. Qed.

Lemma delete_subscriber_contract_witness :
  serve has_at id decimal quiet (DeleteSubscriber "") ann_joined
    = (Responded (failure 400 "Email is required"), ann_joined)
  ∧ ∃ w',
      serve has_at id decimal quiet (DeleteSubscriber "ann@example.com") ann_joined
        = (Responded (success "Subscriber deleted successfully"), w')
      ∧ store w' = delete (id "ann@example.com") (store ann_joined)
      ∧ serve has_at id decimal quiet Subscribers w' = (Responded (listing (all_records w')), w')
      ∧ records_for id "ann@example.com" w' = []
      ∧ serve has_at id decimal quiet (DeleteSubscriber "ann@example.com") w'
          = (Responded (failure 404 "Subscriber not found"), w').
Proof.
  pose proof (delete_subscriber_contract has_at id decimal quiet quiet quiet
                "ann@example.com" ann_joined) as H.
  change (store ann_joined !! id "ann@example.com") with (Some ann) in H.
  apply H.
  - discriminate.
  - reflexivity.
  - reflexivity.
  - reflexivity.
  - apply ann_joined_wf.
Defined.

Lemma bulk_unconfigured_sends_nothing_witness :
  (serve has_at id decimal quiet (BulkEmail (bulk_body "News" "Hello" ["a@x.io"])) unconfigured_world).2
    = unconfigured_world
  ∧ outbox (serve has_at id decimal quiet (BulkEmail (bulk_body "News" "Hello" ["a@x.io"]))
              unconfigured_world).2 = []
  ∧ (serve has_at id decimal quiet (BulkEmail (bulk_body "News" "Hello" ["a@x.io"]))
       unconfigured_world).1
      = Responded (failure 500 "Resend API key not configured.").
Proof.
  destruct (bulk_unconfigured_sends_nothing has_at id decimal quiet
              (bulk_body "News" "Hello" ["a@x.io"]) unconfigured_world eq_refl)
    as (Hworld & Hout & Hanswer).
  split_and!; [exact Hworld|exact Hout|exact (Hanswer eq_refl)].
Defined.

(** No key and an empty body object: 500, not 400. *)
Lemma bulk_config_check_precedes_validation_witness :
  status_of (serve has_at id decimal quiet (BulkEmail (JObj [])) unconfigured_world).1 ≠ Some 400
  ∧ serve has_at id decimal quiet (BulkEmail (JObj [])) unconfigured_world
    = (Responded (failure 500 "Resend API key not configured."), unconfigured_world).
Proof.
  destruct (bulk_config_check_precedes_validation has_at id decimal quiet (JObj [])
              unconfigured_world eq_refl) as (Hnot400 & Hanswer).
  split; [exact Hnot400|exact (Hanswer eq_refl)].
Defined.

(** A body of two lines with markup in them, sent to one recipient. *)
Lemma bulk_html_is_body_with_breaks_witness :
  join_with newline_string (lines two_lines) = two_lines
  ∧ ∃ sent,
      (serve has_at id decimal quiet (BulkEmail (bulk_body "News" two_lines ["a@x.io"]))
         configured_world).2 = post_all sent configured_world
      ∧ Forall (λ mr : Mail * SendResult,
          mail_content mr.1
            = Html ("<div style='font-family:sans-serif;line-height:1.5;'>"
                      +:+ join_with "<br/>" (lines two_lines) +:+ "</div>")) sent
      ∧ map mail_to (sent.*1) = [JStr "a@x.io"].
Proof.
  destruct (bulk_html_is_body_with_breaks has_at id decimal quiet
              (bulk_body "News" two_lines ["a@x.io"]) configured_world two_lines
              eq_refl) as (Hlines & sent & Hworld & Hhtml & Hto).
  split; [exact Hlines|]. exists sent. split_and!; [exact Hworld|exact Hhtml|].
  apply (Hto (JStr "News") [JStr "a@x.io"]).
  repeat split; discriminate.
Defined.

Example two_lines_html :
  html_of two_lines
    = "<div style='font-family:sans-serif;line-height:1.5;'><b>Hi</b><br/><i>all</i></div>".
Proof. reflexivity. Qed.

(** * Concrete runs of the further properties *)

Lemma join_admits_witness :
  serve has_at id decimal quiet (Join (join_body "Ann" "ann@example.com" "customer"))
    configured_world
  = (Responded (joined 1), ann_joined).
Proof.
  apply (join_admits has_at id decimal quiet (join_body "Ann" "ann@example.com" "customer")
           "Ann" "ann@example.com" customer configured_world);
    try reflexivity; try discriminate.
  constructor.
Defined.

Lemma join_store_fault_witness :
  serve has_at id decimal store_down (Join (join_body "Ann" "ann@example.com" "customer"))
    configured_world
  = (Responded unexpected, configured_world).
Proof.
  apply (join_store_fault has_at id decimal store_down
           (join_body "Ann" "ann@example.com" "customer") (JsError "ECONNRESET")
           configured_world); reflexivity.
Defined.

Lemma join_count_fault_witness :
  serve has_at id decimal count_down (Join (join_body "Ann" "ann@example.com" "customer"))
    configured_world
  = (Responded unexpected, ann_joined).
Proof.
  apply (join_count_fault has_at id decimal count_down
           (join_body "Ann" "ann@example.com" "customer")
           "Ann" "ann@example.com" customer (JsError "ECONNRESET") []
           configured_world);
    try reflexivity; discriminate.
Defined.

(** A valid name and role with an empty email. *)
Lemma join_guard_first_witness :
  serve has_at id decimal quiet (Join (join_body "Ann" "" "admin")) ann_joined
  = (Responded (failure 400 "All fields are required"), ann_joined).
Proof.
  apply (join_guard_first has_at id decimal quiet (join_body "Ann" "" "admin") ann_joined);
    reflexivity.
Defined.


Lemma join_role_quoted_witness :
  serve has_at id decimal quiet (Join (join_body "Ann" "ann@example.com" "<b>admin</b>"))
    ann_joined
  = (Responded
       (failure 400
          "Invalid enum value. Expected 'customer' | 'provider', received '<b>admin</b>'"),
     ann_joined).
Proof.
  apply (join_role_quoted has_at id decimal quiet
           (join_body "Ann" "ann@example.com" "<b>admin</b>")
           "Ann" "ann@example.com" "<b>admin</b>" ann_joined);
    try reflexivity; discriminate.
Defined.

Lemma bulk_all_delivered_witness :
  serve has_at id decimal quiet (BulkEmail (bulk_body "News" "Hello" ["a@x.io"; "a@x.io"]))
    configured_world
  = (Responded (success "Sent to 2 subscriber(s)."),
     post_all
       [(bulk_mail (JStr "News") "Hello" (JStr "a@x.io"), Delivered);
        (bulk_mail (JStr "News") "Hello" (JStr "a@x.io"), Delivered)]
       configured_world).
Proof.
  apply (bulk_all_delivered has_at id decimal quiet
           (bulk_body "News" "Hello" ["a@x.io"; "a@x.io"]) configured_world
           (JStr "News") "Hello" [JStr "a@x.io"; JStr "a@x.io"]).
  - repeat split; discriminate.
  - repeat constructor.
Defined.

(** An empty list of recipients. *)
Lemma bulk_missing_fields_witness :
  serve has_at id decimal quiet (BulkEmail (bulk_body "News" "Hello" [])) configured_world
  = (Responded
       (failure 400 "Subject, body, and at least one recipient are required."),
     configured_world).
Proof.
  apply (bulk_missing_fields has_at id decimal quiet (bulk_body "News" "Hello" [])
           configured_world); reflexivity.
Defined.

Lemma bulk_send_throws_witness :
  serve has_at id decimal second_throws
    (BulkEmail (bulk_body "News" "Hello" ["a@x.io"; "b@x.io"; "c@x.io"]))
    configured_world
  = (Responded sending_failed,
     post_all
       [(bulk_mail (JStr "News") "Hello" (JStr "a@x.io"), Delivered);
        (bulk_mail (JStr "News") "Hello" (JStr "b@x.io"),
         Crashed (JsError "socket hang up"));
        (bulk_mail (JStr "News") "Hello" (JStr "c@x.io"), Delivered)]
       configured_world).
Proof.
  apply (bulk_send_throws has_at id decimal second_throws
           (bulk_body "News" "Hello" ["a@x.io"; "b@x.io"; "c@x.io"]) configured_world
           (JStr "News") "Hello" [JStr "a@x.io"; JStr "b@x.io"; JStr "c@x.io"]).
  - repeat split; discriminate.
  - right. by left.
Defined.

(** One address given as a string where the list is expected. *)
Lemma bulk_wrong_types_witness :
  serve has_at id decimal quiet
    (BulkEmail (JObj [("subject", JStr "News"); ("body", JStr "Hello");
                      ("emails", JStr "a@x.io")]))
    configured_world
  = (Responded sending_failed, configured_world).
Proof.
  apply (bulk_wrong_types has_at id decimal quiet
           (JObj [("subject", JStr "News"); ("body", JStr "Hello");
                  ("emails", JStr "a@x.io")]) configured_world);
    try reflexivity.
  left. reflexivity.
Defined.

Lemma delete_store_fault_witness :
  serve has_at id decimal store_down (DeleteSubscriber "ann@example.com") ann_joined
  = (Responded
       (failure 500 "An unexpected error occurred while deleting subscriber."),
     ann_joined).
Proof.
  apply (delete_store_fault has_at id decimal store_down "ann@example.com"
           (JsError "ECONNRESET") ann_joined);
    [discriminate|reflexivity].
Defined.

